(** * Context-sensitive interpretation: the core of [docs/autodidax2_part1.ipynb]

    The notebook defines two primitive operations ([Op.add], [Op.mul]), three
    interpreters over them (evaluation, forward-mode differentiation, staging
    to an untyped IR) and the global [current_interpreter] that the
    user-facing [add] and [mul] dispatch to.

    Python floats are IEEE-754 binary64 numbers: they are embedded as Rocq's
    primitive floats, so [2.0 * (2.0 + 3.0)] computes to [10.0] here exactly
    as it does in Python.  Code that reads or writes the global, appends to
    the staging interpreter's equation list or raises is embedded in a small
    state-and-exception monad [M]. *)

From Stdlib Require Import Floats.
From stdpp Require Import gmap strings list pretty.

Open Scope string_scope.
Open Scope list_scope.

(** ** Primitive operations *)

(** [class Op(Enum)]: the full (closed) set of primitive operations. *)
Module Op.
Inductive t := add | mul.
End Op.

(** ** Values and interpreters *)

(** Interpreter objects.  [JVPInterpreter] objects are immutable after
    construction, so a reference to one is its address together with its
    [prev_interpreter] field; the mutable fields of a [StagingInterpreter]
    live in the object store of the program state, under its address.
    Object identity (Python's [is]) is identity of class and address. *)
Inductive Interpreter :=
| EvalInterpreter
| JVPInterpreter (addr : nat) (prev_interpreter : Interpreter)
| StagingInterpreter (addr : nat).

(** [Var = str]: variables are just strings in the untyped IR. *)
Abbreviation Var := string.

(** The Python values that flow through user functions: floats, strings
    (the staging interpreter's variables) and [TaggedDualNumber] objects,
    whose [primal] and [tangent] fields hold arbitrary values again. *)
Inductive value :=
| VFloat (x : float)
| VStr (s : Var)
| TaggedDualNumber (interpreter : Interpreter) (primal tangent : value).

(** [x is y] on interpreter objects. *)
Definition is_ (x y : Interpreter) : bool :=
  match x, y with
  | EvalInterpreter, EvalInterpreter => true
  | JVPInterpreter a _, JVPInterpreter b _ => Nat.eqb a b
  | StagingInterpreter a, StagingInterpreter b => Nat.eqb a b
  | _, _ => false
  end.

Definition isinstance_float (v : value) : bool :=
  match v with VFloat _ => true | _ => false end.

(** ** The IR *)

(** [Equation]: a single line of the IR like [z = mul(x, y)].  The [args]
    tuple holds whatever values the primitive was applied to. *)
Record Equation := {
  var : Var;
  op : Op.t;
  args : list value
}.

(** [Jaxpr]: formal parameters, equations, return value. *)
Record Jaxpr := {
  parameters : list Var;
  equations : list Equation;
  return_val : value
}.

(** ** Program state, exceptions and the monad *)

(** The mutable fields of a [StagingInterpreter] object. *)
Record StagingObject := {
  staged_equations : list Equation;
  name_counter : nat
}.

(** The global [current_interpreter], the store of staging-interpreter
    objects and the next free address. *)
Record State := {
  current_interpreter : Interpreter;
  objects : gmap nat StagingObject;
  next_addr : nat
}.

(** The Python exceptions the modelled code can raise. *)
Inductive exn :=
| AssertionError
| ValueError
| KeyError
| TypeError
| AttributeError.

Inductive outcome (A : Type) :=
| Ok (a : A)
| Raise (e : exn).
Arguments Ok {A} a.
Arguments Raise {A} e.

Definition M (A : Type) : Type := State -> outcome A * State.

Definition ret {A} (a : A) : M A := fun s => (Ok a, s).

Definition raise {A} (e : exn) : M A := fun s => (Raise e, s).

Definition bind {A B} (m : M A) (k : A -> M B) : M B :=
  fun s =>
    match m s with
    | (Ok a, s') => k a s'
    | (Raise e, s') => (Raise e, s')
    end.

Declare Scope py_scope.
Delimit Scope py_scope with py.
Notation "x <- c ;; k" := (bind c (fun x => k))
  (at level 100, c at next level, right associativity) : py_scope.
Open Scope py_scope.

(** [try: body finally: fin]: [fin] runs on both exits and the outcome of
    [body] is propagated ([fin] itself does not raise in this program). *)
Definition try_finally {A} (body : M A) (fin : State -> State) : M A :=
  fun s => let (r, s') := body s in (r, fin s').

Definition set_current (i : Interpreter) (s : State) : State :=
  {| current_interpreter := i; objects := objects s; next_addr := next_addr s |}.

(** Reading the global [current_interpreter]. *)
Definition get_current_interpreter : M Interpreter :=
  fun s => (Ok (current_interpreter s), s).

(** [with set_interpreter(new_interpreter): body]

    The context manager saves the current interpreter, installs the new
    one, yields to the body and restores the saved one in its [finally]. *)
Definition set_interpreter {A} (new_interpreter : Interpreter) (body : M A) : M A :=
  fun s =>
    let prev_interpreter := current_interpreter s in
    try_finally
      (fun s => body (set_current new_interpreter s))
      (set_current prev_interpreter) s.

(** [x, y = args] *)
Definition unpack2 {A} (args : list A) : M (A * A) :=
  match args with
  | [x; y] => ret (x, y)
  | _ => raise ValueError
  end.

(** Attribute access [x.primal], [x.tangent]. *)
Definition get_primal (x : value) : M value :=
  match x with
  | TaggedDualNumber _ p _ => ret p
  | _ => raise AttributeError
  end.

Definition get_tangent (x : value) : M value :=
  match x with
  | TaggedDualNumber _ _ t => ret t
  | _ => raise AttributeError
  end.

(** ** The evaluating interpreter *)

Module EvalInterpreter.

(** Python's [x + y] and [x * y]; they are only reached on floats, past
    the assertion of [interpret_op]. *)
Definition float_add (x y : value) : M value :=
  match x, y with
  | VFloat a, VFloat b => ret (VFloat (a + b))
  | _, _ => raise TypeError
  end.

Definition float_mul (x y : value) : M value :=
  match x, y with
  | VFloat a, VFloat b => ret (VFloat (a * b))
  | _, _ => raise TypeError
  end.

Definition interpret_op (op : Op.t) (args : list value) : M value :=
  if forallb isinstance_float args then
    match op with
    | Op.add => xy <- unpack2 args ;; let '(x, y) := xy in float_add x y
    | Op.mul => xy <- unpack2 args ;; let '(x, y) := xy in float_mul x y
    end
  else raise AssertionError.

End EvalInterpreter.

(** ** The staging interpreter *)

Module StagingInterpreter.

Definition set_object (a : nat) (o : StagingObject) (s : State) : State :=
  {| current_interpreter := current_interpreter s;
     objects := <[a := o]> (objects s);
     next_addr := next_addr s |}.

(** [StagingInterpreter()]: a new object, at a fresh address, with no
    equations and the name counter at zero. *)
Definition new : M nat :=
  fun s =>
    let a := next_addr s in
    (Ok a,
     {| current_interpreter := current_interpreter s;
        objects := <[a := {| staged_equations := []; name_counter := 0 |}]> (objects s);
        next_addr := S a |}).

Definition get_object (a : nat) : M StagingObject :=
  fun s =>
    match objects s !! a with
    | Some o => (Ok o, s)
    | None => (Raise AttributeError, s)
    end.

(** [self.name_counter += 1; return "v_" + str(self.name_counter)] *)
Definition fresh_var (self : nat) : M Var :=
  o <- get_object self ;;
  let n := S (name_counter o) in
  fun s =>
    (Ok ("v_" +:+ pretty n),
     set_object self {| staged_equations := staged_equations o; name_counter := n |} s).

(** [self.equations.append(Equation(binder, op, args))] *)
Definition append_equation (self : nat) (e : Equation) : M unit :=
  o <- get_object self ;;
  fun s =>
    (Ok tt,
     set_object self {| staged_equations := staged_equations o ++ [e];
                        name_counter := name_counter o |} s).

Definition interpret_op (self : nat) (op : Op.t) (args : list value) : M value :=
  binder <- fresh_var self ;;
  _ <- append_equation self {| var := binder; op := op; args := args |} ;;
  ret (VStr binder).

End StagingInterpreter.

(** ** The JVP interpreter *)

Module JVPInterpreter.

(** [JVPInterpreter(prev_interpreter)] *)
Definition new (prev_interpreter : Interpreter) : M Interpreter :=
  fun s =>
    let a := next_addr s in
    (Ok (JVPInterpreter a prev_interpreter),
     {| current_interpreter := current_interpreter s;
        objects := objects s;
        next_addr := S a |}).

Definition dual_number (self : Interpreter) (primal tangent : value) : value :=
  TaggedDualNumber self primal tangent.

(** Lift a constant value (constant with respect to this interpreter) to
    a [TaggedDualNumber]. *)
Definition lift (self : Interpreter) (x : value) : value :=
  match x with
  | TaggedDualNumber i _ _ =>
      if is_ i self then x else dual_number self x (VFloat 0.0)
  | _ => dual_number self x (VFloat 0.0)
  end.

Section Rules.
(** The interpreter-dispatching functions the rules are written with. *)
Variable add mul : value -> value -> M value.

Definition interpret_op (self prev_interpreter : Interpreter)
           (op : Op.t) (args : list value) : M value :=
  let args := map (lift self) args in
  set_interpreter prev_interpreter
    match op with
    | Op.add =>
        xy <- unpack2 args ;; let '(x, y) := xy in
        xp <- get_primal x ;; yp <- get_primal y ;;
        p <- add xp yp ;;
        xt <- get_tangent x ;; yt <- get_tangent y ;;
        t <- add xt yt ;;
        ret (dual_number self p t)
    | Op.mul =>
        xy <- unpack2 args ;; let '(x, y) := xy in
        let x := lift self x in
        let y := lift self y in
        xp <- get_primal x ;; yp <- get_primal y ;;
        p <- mul xp yp ;;
        yt <- get_tangent y ;;
        t1 <- mul xp yt ;;
        xt <- get_tangent x ;;
        t2 <- mul xt yp ;;
        t <- add t1 t2 ;;
        ret (dual_number self p t)
    end.
End Rules.

End JVPInterpreter.

(** ** Dispatch *)

(** [i.interpret_op(op, args)]: method dispatch on the class of [i].  The
    JVP rules call [add] and [mul] under [set_interpreter(prev_interpreter)];
    the recursion follows the chain of [prev_interpreter] references, and
    [JVP_interpret_op_unfold] below shows that these calls are the calls of
    the global, state-reading [add] and [mul]. *)
Fixpoint interpret_op (self : Interpreter) (op : Op.t) (args : list value) : M value :=
  match self with
  | EvalInterpreter => EvalInterpreter.interpret_op op args
  | StagingInterpreter a => StagingInterpreter.interpret_op a op args
  | JVPInterpreter a prev =>
      JVPInterpreter.interpret_op
        (fun x y => interpret_op prev Op.add [x; y])
        (fun x y => interpret_op prev Op.mul [x; y])
        (JVPInterpreter a prev) prev op args
  end.

(** [current_interpreter.interpret_op(op, args)] *)
Definition dispatch (op : Op.t) (args : list value) : M value :=
  fun s => interpret_op (current_interpreter s) op args s.

(** The user-facing functions [add] and [mul] dispatch to the current
    interpreter. *)
Definition add (x y : value) : M value := dispatch Op.add [x; y].
Definition mul (x y : value) : M value := dispatch Op.mul [x; y].

(** [def foo(x): return mul(x, add(x, 3.0))] *)
Definition foo (x : value) : M value :=
  a <- add x (VFloat 3.0) ;; mul x a.

(** The state at the start of the program: the current interpreter is the
    evaluating interpreter. *)
Definition initial_state : State :=
  {| current_interpreter := EvalInterpreter; objects := ∅; next_addr := 1 |}.

(** ** Forward-mode differentiation *)

Definition jvp (f : value -> M value) (primal tangent : value) : M (value * value) :=
  prev <- get_current_interpreter ;;
  jvp_interpreter <- JVPInterpreter.new prev ;;
  let dual_number_in := JVPInterpreter.dual_number jvp_interpreter primal tangent in
  result <- set_interpreter jvp_interpreter (f dual_number_in) ;;
  let dual_number_out := JVPInterpreter.lift jvp_interpreter result in
  p <- get_primal dual_number_out ;;
  t <- get_tangent dual_number_out ;;
  ret (p, t).

Definition derivative (f : value -> M value) (x : value) : M value :=
  pt <- jvp f x (VFloat 1.0) ;;
  let '(_, tangent) := pt in ret tangent.

Fixpoint nth_order_derivative (n : nat) (f : value -> M value) (x : value) : M value :=
  match n with
  | 0 => f x
  | S n' => derivative (fun x => nth_order_derivative n' f x) x
  end.

(** The notebook's perturbation-confusion example: [g] is constant in its
    (ignored) argument [y] and returns the captured [x]. *)
Definition f (x : value) : M value :=
  let g (y : value) : M value := ret x in
  should_be_zero <- derivative g (VFloat 0.0) ;;
  mul x should_be_zero.

(** ** Staging *)

(** [f( *xs )] for a one-parameter function [f]: any other number of
    arguments is a [TypeError]. *)
Definition star1 (f : value -> M value) (xs : list value) : M value :=
  match xs with
  | [x] => f x
  | _ => raise TypeError
  end.

(** [tuple(interpreter.fresh_var() for _ in range(num_args))] *)
Fixpoint fresh_vars (self : nat) (num_args : nat) : M (list Var) :=
  match num_args with
  | 0 => ret []
  | S n =>
      v <- StagingInterpreter.fresh_var self ;;
      vs <- fresh_vars self n ;;
      ret (v :: vs)
  end.

Definition build_jaxpr (f : list value -> M value) (num_args : nat) : M Jaxpr :=
  interpreter <- StagingInterpreter.new ;;
  parameters <- fresh_vars interpreter num_args ;;
  result <- set_interpreter (StagingInterpreter interpreter) (f (map VStr parameters)) ;;
  o <- StagingInterpreter.get_object interpreter ;;
  ret {| parameters := parameters;
         equations := staged_equations o;
         return_val := result |}.

(** ** Evaluating the IR *)

(** [dict(zip(keys, vals))]: [zip] stops at the shorter sequence and a later
    binding of a key replaces an earlier one. *)
Definition dict_zip (keys : list Var) (vals : list value) : gmap string value :=
  fold_left (fun env kv => <[kv.1 := kv.2]> env) (zip keys vals) ∅.

(** [env[x] if isinstance(x, Var) else x] *)
Definition eval_atom (env : gmap string value) (x : value) : M value :=
  match x with
  | VStr v =>
      match env !! v with
      | Some y => ret y
      | None => raise KeyError
      end
  | _ => ret x
  end.

(** [tuple(g(x) for x in xs)] for a [g] that may raise. *)
Fixpoint tuple_of {A B} (g : A -> M B) (xs : list A) : M (list B) :=
  match xs with
  | [] => ret []
  | x :: xs' => y <- g x ;; ys <- tuple_of g xs' ;; ret (y :: ys)
  end.

(** The loop [for eqn in jaxpr.equations: ...] over the environment. *)
Fixpoint eval_equations (eqns : list Equation) (env : gmap string value)
  : M (gmap string value) :=
  match eqns with
  | [] => ret env
  | eqn :: eqns' =>
      args <- tuple_of (eval_atom env) (args eqn) ;;
      v <- dispatch (op eqn) args ;;
      eval_equations eqns' (<[var eqn := v]> env)
  end.

Definition eval_jaxpr (jaxpr : Jaxpr) (args : list value) : M value :=
  env <- eval_equations (equations jaxpr) (dict_zip (parameters jaxpr) args) ;;
  eval_atom env (return_val jaxpr).

(** ** The textual form of a jaxpr *)

Module Jaxpr.
Section Printer.
(** Python's [repr] of a float, of a string and of an interpreter object:
    the shortest decimal that round-trips, the quoted string and the
    address-dependent default. *)
Variable repr_float : float -> string.
Variable repr_str : string -> string.
Variable repr_Interpreter : Interpreter -> string.

(** [repr(v)]; a [TaggedDualNumber] prints as the dataclass it is. *)
Fixpoint repr (v : value) : string :=
  match v with
  | VFloat x => repr_float x
  | VStr s => repr_str s
  | TaggedDualNumber i p t =>
      "TaggedDualNumber(interpreter=" +:+ repr_Interpreter i
      +:+ ", primal=" +:+ repr p +:+ ", tangent=" +:+ repr t +:+ ")"
  end.

(** [str(v)] *)
Definition str (v : value) : string :=
  match v with
  | VStr s => s
  | _ => repr v
  end.

(** [f'{op}'] *)
Definition str_Op (o : Op.t) : string :=
  match o with
  | Op.add => "Op.add"
  | Op.mul => "Op.mul"
  end.

(** [sep.join(items)] on strings. *)
Fixpoint join (sep : string) (items : list string) : string :=
  match items with
  | [] => ""
  | [x] => x
  | x :: items' => x +:+ sep +:+ join sep items'
  end.

(** The strings of a list of values, if all of them are strings. *)
Fixpoint all_str (items : list value) : option (list string) :=
  match items with
  | [] => Some []
  | VStr x :: items' => option_map (cons x) (all_str items')
  | _ :: _ => None
  end.

(** [sep.join(items)] on arbitrary values: a [TypeError] unless every item
    is a string. *)
Definition str_join (sep : string) (items : list value) : M string :=
  match all_str items with
  | Some strs => ret (join sep strs)
  | None => raise TypeError
  end.

Definition newline : string := String (Ascii.ascii_of_nat 10) "".

(** The line of one equation: [f'  {eqn.var} = {eqn.op}({args_str})']. *)
Definition equation_line (eqn : Equation) : string :=
  let args_str := join ", " (map str (args eqn)) in
  "  " +:+ var eqn +:+ " = " +:+ str_Op (op eqn) +:+ "(" +:+ args_str +:+ ")".

Definition __str__ (self : Jaxpr) : M string :=
  let lines : list value := [] in
  let lines := lines ++ [VStr (join ", " (parameters self) +:+ " ->")] in
  let lines := fold_left (fun lines eqn => lines ++ [VStr (equation_line eqn)])
                         (equations self) lines in
  let lines := lines ++ [return_val self] in
  str_join newline lines.

End Printer.
End Jaxpr.

(** [lambda x: eval_jaxpr(build_jaxpr(foo, 1), (x,))] *)
Definition staged_foo (x : value) : M value :=
  jaxpr <- build_jaxpr (star1 foo) 1 ;;
  eval_jaxpr jaxpr [x].

(** ** The nested-structure flattener *)

(** The kinds of descriptor nodes, as the serialization schema declares
    them ([enum PyTreeDefKind]). *)
Module PyTreeDefKind.
Inductive t := leaf | none | tuple | list | dict | custom.
End PyTreeDefKind.

Local Set Warnings "-register-all".

(** [table PyTreeDef] of the serialization schema: [children_names] is used
    by [dict] nodes only, [custom_name] and [custom_auxdata] by [custom]
    nodes only. *)
Inductive PyTreeDef := {
  kind : PyTreeDefKind.t;
  children : list PyTreeDef;
  children_names : list string;
  custom_name : string;
  custom_auxdata : list Byte.byte
}.

(** Modelled from the spec: the flattener itself ([flatten], [unflatten]) is
    not among the sources, only the declaration of its descriptors is.  A
    nested structure is a leaf, the empty structure [None], a sequence (a
    tuple or a list), a mapping with named keys, or a registered custom
    container, which is represented by what its own flatten function yields:
    its auxiliary data and its children. *)
Inductive pytree (L : Type) :=
| Leaf (x : L)
| PNone
| PTuple (xs : list (pytree L))
| PList (xs : list (pytree L))
| PDict (items : list (string * pytree L))
| PCustom (name : string) (auxdata : list Byte.byte) (xs : list (pytree L)).
Arguments Leaf {L} x.
Arguments PNone {L}.
Arguments PTuple {L} xs.
Arguments PList {L} xs.
Arguments PDict {L} items.
Arguments PCustom {L} name auxdata xs.

Inductive flatten_error := ArityMismatch | StructureMismatch.

Module Flattener.
Section Flatten.
Context {L : Type}.

(** A descriptor node that is neither a mapping nor a custom container. *)
Definition node (k : PyTreeDefKind.t) (ds : list PyTreeDef) : PyTreeDef :=
  {| kind := k; children := ds; children_names := [];
     custom_name := ""; custom_auxdata := [] |}.

(** Modelled from the spec: the flat, ordered sequence of the leaves. *)
Fixpoint leaves (s : pytree L) : list L :=
  match s with
  | Leaf x => [x]
  | PNone => []
  | PTuple xs => flat_map leaves xs
  | PList xs => flat_map leaves xs
  | PDict items => flat_map (fun kv => leaves kv.2) items
  | PCustom _ _ xs => flat_map leaves xs
  end.

(** Modelled from the spec: the descriptor, which records the container
    shape and nothing of the leaves. *)
Fixpoint treedef (s : pytree L) : PyTreeDef :=
  match s with
  | Leaf _ => node PyTreeDefKind.leaf []
  | PNone => node PyTreeDefKind.none []
  | PTuple xs => node PyTreeDefKind.tuple (map treedef xs)
  | PList xs => node PyTreeDefKind.list (map treedef xs)
  | PDict items =>
      {| kind := PyTreeDefKind.dict;
         children := map (fun kv => treedef kv.2) items;
         children_names := map fst items;
         custom_name := ""; custom_auxdata := [] |}
  | PCustom name auxdata xs =>
      {| kind := PyTreeDefKind.custom;
         children := map treedef xs;
         children_names := [];
         custom_name := name; custom_auxdata := auxdata |}
  end.

(** Modelled from the spec: [flatten(value)] is the pair of the leaves and
    the descriptor. *)
Definition flatten (s : pytree L) : list L * PyTreeDef := (leaves s, treedef s).

(** Modelled from the spec: the leaf count a descriptor implies. *)
Fixpoint num_leaves (d : PyTreeDef) : nat :=
  match d with
  | Build_PyTreeDef PyTreeDefKind.leaf _ _ _ _ => 1
  | Build_PyTreeDef _ ds _ _ _ => list_sum (map num_leaves ds)
  end.

(** Modelled from the spec: rebuilding consumes the leaves from the front,
    in order; [None] when the leaves run out or a mapping's names do not
    match its children. *)
Fixpoint rebuild (d : PyTreeDef) (ls : list L) : option (pytree L * list L) :=
  let rebuild_all :=
    fix rebuild_all (ds : list PyTreeDef) (ls : list L)
      : option (list (pytree L) * list L) :=
      match ds with
      | [] => Some ([], ls)
      | d :: ds' =>
          match rebuild d ls with
          | Some (s, ls') =>
              match rebuild_all ds' ls' with
              | Some (ss, ls'') => Some (s :: ss, ls'')
              | None => None
              end
          | None => None
          end
      end in
  match d with
  | Build_PyTreeDef k ds names name auxdata =>
      match k with
      | PyTreeDefKind.leaf =>
          match ls with
          | x :: ls' => Some (Leaf x, ls')
          | [] => None
          end
      | PyTreeDefKind.none => Some (PNone, ls)
      | PyTreeDefKind.tuple =>
          match rebuild_all ds ls with
          | Some (ss, ls') => Some (PTuple ss, ls')
          | None => None
          end
      | PyTreeDefKind.list =>
          match rebuild_all ds ls with
          | Some (ss, ls') => Some (PList ss, ls')
          | None => None
          end
      | PyTreeDefKind.dict =>
          match rebuild_all ds ls with
          | Some (ss, ls') =>
              if Nat.eqb (length names) (length ss)
              then Some (PDict (zip names ss), ls')
              else None
          | None => None
          end
      | PyTreeDefKind.custom =>
          match rebuild_all ds ls with
          | Some (ss, ls') => Some (PCustom name auxdata ss, ls')
          | None => None
          end
      end
  end.

(** Rebuilding a list of children, one after the other, as [rebuild]
    does. *)
Fixpoint rebuild_all (ds : list PyTreeDef) (ls : list L)
  : option (list (pytree L) * list L) :=
  match ds with
  | [] => Some ([], ls)
  | d :: ds' =>
      match rebuild d ls with
      | Some (s, ls') =>
          match rebuild_all ds' ls' with
          | Some (ss, ls'') => Some (s :: ss, ls'')
          | None => None
          end
      | None => None
      end
  end.

(** Modelled from the spec: [unflatten(descriptor, leaves)] fails with
    [ArityMismatch] when the number of leaves is not the descriptor's leaf
    count, and with [StructureMismatch] when the descriptor cannot be
    rebuilt. *)
Definition unflatten (d : PyTreeDef) (ls : list L) : flatten_error + pytree L :=
  if Nat.eqb (length ls) (num_leaves d) then
    match rebuild d ls with
    | Some (s, _) => inr s
    | None => inl StructureMismatch
    end
  else inl ArityMismatch.

End Flatten.

(** Replacing the leaf values and keeping the containers. *)
Fixpoint tree_map {A B : Type} (g : A -> B) (s : pytree A) : pytree B :=
  match s with
  | Leaf x => Leaf (g x)
  | PNone => PNone
  | PTuple xs => PTuple (map (tree_map g) xs)
  | PList xs => PList (map (tree_map g) xs)
  | PDict items => PDict (map (fun kv => (kv.1, tree_map g kv.2)) items)
  | PCustom name auxdata xs => PCustom name auxdata (map (tree_map g) xs)
  end.

(** Two structures have the same container shape when they are equal once
    their leaf values are forgotten. *)
Definition same_shape {A B : Type} (s1 : pytree A) (s2 : pytree B) : Prop :=
  tree_map (fun _ => tt) s1 = tree_map (fun _ => tt) s2.

End Flattener.

(** ** Notions the properties are stated with *)

(** A computation keeps the current interpreter when, on every exit path,
    the global holds what it held on entry. *)
Definition keeps_current {A} (m : M A) : Prop :=
  forall s, current_interpreter (m s).2 = current_interpreter s.

(** The name the counter hands out at [k]. *)
Definition var_name (k : nat) : Var := "v_" +:+ pretty k.

Definition parameter_names (num_args : nat) : list Var :=
  map var_name (seq 1 num_args).

(** The state in which [build_jaxpr(f, num_args)] calls [f]: the new
    staging interpreter, at the first free address, is current, has no
    equations yet and has handed out [num_args] names. *)
Definition staging_entry (num_args : nat) (s : State) : State :=
  {| current_interpreter := StagingInterpreter (next_addr s);
     objects := <[next_addr s := {| staged_equations := [];
                                    name_counter := num_args |}]> (objects s);
     next_addr := S (next_addr s) |}.

(** The jaxpr of [foo], as the notebook prints it:
    [v_1 -> v_2 = Op.add(v_1, 3.0); v_3 = Op.mul(v_1, v_2); v_3]. *)
Definition jaxpr_foo : Jaxpr :=
  {| parameters := ["v_1"];
     equations :=
       [ {| var := "v_2"; op := Op.add; args := [VStr "v_1"; VFloat 3.0] |};
         {| var := "v_3"; op := Op.mul; args := [VStr "v_1"; VStr "v_2"] |} ];
     return_val := VStr "v_3" |}.

(** Code over the primitives: invocations of [add] and [mul], each
    continuing with the value it returned, calls of [jvp] on such code,
    continuing with the primal and the tangent, and a final return. *)
Inductive Prog :=
| Return (v : value)
| Prim (o : Op.t) (x y : value) (k : value -> Prog)
| Jvp (body : value -> Prog) (primal tangent : value) (k : value -> value -> Prog).

Fixpoint run (p : Prog) : M value :=
  match p with
  | Return v => ret v
  | Prim o x y k => v <- dispatch o [x; y] ;; run (k v)
  | Jvp body primal tangent k =>
      pt <- jvp (fun x => run (body x)) primal tangent ;;
      run (k pt.1 pt.2)
  end.

(** [foo], and [lambda x: derivative(foo, x)], as such code. *)
Definition foo_body (x : value) : Prog :=
  Prim Op.add x (VFloat 3.0) (fun a => Prim Op.mul x a Return).

Definition foo_prog (xs : list value) : Prog :=
  match xs with
  | [x] => foo_body x
  | _ => Return (VFloat 0.0)
  end.

Definition derivative_foo_prog (xs : list value) : Prog :=
  match xs with
  | [x] => Jvp foo_body x (VFloat 1.0) (fun _ tangent => Return tangent)
  | _ => Return (VFloat 0.0)
  end.

(** An atom is in scope when it is a literal or a variable of [bound]. *)
Definition atom_ok (bound : list Var) (v : value) : Prop :=
  forall x, v = VStr x -> x ∈ bound.

(** The variables a value holds, itself or in the components of a dual
    number. *)
Fixpoint vars_of (v : value) : list Var :=
  match v with
  | VFloat _ => []
  | VStr x => [x]
  | TaggedDualNumber _ p t => vars_of p ++ vars_of t
  end.

(** A value is in scope when all the variables it holds are in [bound]. *)
Definition value_ok (bound : list Var) (v : value) : Prop :=
  forall x, x ∈ vars_of v -> x ∈ bound.

(** Code is closed over [bound], with respect to a notion [ok] of values
    in scope, when the primitives and [jvp] are applied to values in scope
    only and a value in scope is returned, where the values that earlier
    invocations returned are in scope for the code that follows. *)
Inductive closed_with (ok : list Var -> value -> Prop) : list Var -> Prog -> Prop :=
| closed_Return bound v :
    ok bound v -> closed_with ok bound (Return v)
| closed_Prim bound o x y k :
    ok bound x -> ok bound y ->
    (forall bound' v, bound ⊆ bound' -> ok bound' v -> closed_with ok bound' (k v)) ->
    closed_with ok bound (Prim o x y k)
| closed_Jvp bound body primal tangent k :
    ok bound primal -> ok bound tangent ->
    (forall bound' x, bound ⊆ bound' -> ok bound' x -> closed_with ok bound' (body x)) ->
    (forall bound' p t, bound ⊆ bound' -> ok bound' p -> ok bound' t ->
       closed_with ok bound' (k p t)) ->
    closed_with ok bound (Jvp body primal tangent k).

(** Closed code passes on only literals, the variables of [bound] and what
    earlier invocations returned. *)
Definition closed : list Var -> Prog -> Prop := closed_with value_ok.

(** Every argument of every equation is in scope, where the scope of an
    equation is [bound] and the results of the equations before it. *)
Fixpoint scoped_with (ok : list Var -> value -> Prop)
         (bound : list Var) (eqns : list Equation) : Prop :=
  match eqns with
  | [] => True
  | e :: eqns' =>
      Forall (ok bound) (args e) /\ scoped_with ok (bound ++ [var e]) eqns'
  end.

(** Every variable among the arguments of an equation is a parameter or
    the result of an earlier equation. *)
Definition scoped_equations : list Var -> list Equation -> Prop :=
  scoped_with atom_ok.

(** The names a jaxpr binds: its parameters and the results of its
    equations. *)
Definition names (j : Jaxpr) : list Var :=
  parameters j ++ map var (equations j).

Definition well_scoped (j : Jaxpr) : Prop :=
  scoped_equations (parameters j) (equations j)
  /\ atom_ok (names j) (return_val j).

(** An interpreter stages into the staging interpreter at address [a] when
    it is that interpreter or a JVP interpreter over one that does. *)
Fixpoint stages_into (a : nat) (i : Interpreter) : Prop :=
  match i with
  | EvalInterpreter => False
  | StagingInterpreter b => b = a
  | JVPInterpreter _ prev => stages_into a prev
  end.

(** [staged_at ok a i bound m Q]: run with [i] current, [m] returns, leaves
    [i] current, appends to the staging interpreter at [a] equations that
    bind the next names of its counter and whose arguments are in scope, and
    its result satisfies [Q] over the scope so extended. *)
Definition staged_at (ok : list Var -> value -> Prop) (a : nat) {A}
           (i : Interpreter) (bound : list Var) (m : M A)
           (Q : list Var -> A -> Prop) : Prop :=
  forall s o,
    current_interpreter s = i ->
    objects s !! a = Some o ->
    exists r new s',
      m s = (Ok r, s')
      /\ current_interpreter s' = i
      /\ objects s' !! a
         = Some {| staged_equations := staged_equations o ++ new;
                   name_counter := name_counter o + length new |}
      /\ map var new = map var_name (seq (S (name_counter o)) (length new))
      /\ scoped_with ok bound new
      /\ Q (bound ++ map var new) r.

(** [lambda: add(x, 3.0)], a thunk closing over [x], and a function that
    stages and evaluates such a thunk over its own parameter. *)
Definition thunk (x : value) (xs : list value) : M value :=
  match xs with
  | [] => add x (VFloat 3.0)
  | _ => raise TypeError
  end.

Definition outer (x : value) : M value :=
  inner <- build_jaxpr (thunk x) 0 ;;
  eval_jaxpr inner [].

(** ** Dual numbers written out by hand *)

(** [@dataclass class DualNumber]: a primal-tangent pair of floats. *)
Record DualNumber := { primal : float; tangent : float }.

Definition add_dual (x y : DualNumber) : DualNumber :=
  {| primal := primal x + primal y; tangent := tangent x + tangent y |}.

Definition mul_dual (x y : DualNumber) : DualNumber :=
  {| primal := primal x * primal y;
     tangent := primal x * tangent y + tangent x * primal y |}.

(** [foo] rewritten by hand: every primitive replaced by its [_dual]
    version and the literal [3.0] by [DualNumber(3.0, 0.0)]. *)
Definition foo_dual (x : DualNumber) : DualNumber :=
  mul_dual x (add_dual x {| primal := 3.0; tangent := 0.0 |}).

(** ** Functions written with the primitives *)

(** The body of a Python function that computes with [add], [mul], float
    literals, its parameters and local variables: [EVar i] is the [i]-th
    name in scope, the parameters first and then the locals in the order of
    their assignments; [ELet e1 e2] is [y = e1] followed by [e2]. *)
Inductive Expr :=
| EVar (i : nat)
| EConst (c : float)
| EPrim (o : Op.t) (e1 e2 : Expr)
| ELet (e1 e2 : Expr).

(** Every name is in scope, with [n] names in scope at the start. *)
Fixpoint well_formed (n : nat) (e : Expr) : bool :=
  match e with
  | EVar i => bool_decide (i < n)
  | EConst _ => true
  | EPrim _ e1 e2 => well_formed n e1 && well_formed n e2
  | ELet e1 e2 => well_formed n e1 && well_formed (S n) e2
  end.

(** Running the body with the values [env] of the names in scope: Python
    evaluates the arguments of a call from left to right and then makes the
    call, which dispatches to the interpreter current at that moment.  A
    name out of scope does not occur in a well-formed body. *)
Fixpoint py_expr (e : Expr) (env : list value) : M value :=
  match e with
  | EVar i =>
      match env !! i with
      | Some v => ret v
      | None => raise KeyError
      end
  | EConst c => ret (VFloat c)
  | EPrim o e1 e2 =>
      x <- py_expr e1 env ;;
      y <- py_expr e2 env ;;
      dispatch o [x; y]
  | ELet e1 e2 =>
      y <- py_expr e1 env ;;
      py_expr e2 (env ++ [y])
  end.

(** [f( *xs )] for the function [f] of [n] parameters with body [e]: any
    other number of arguments is a [TypeError]. *)
Definition py_fun (n : nat) (e : Expr) (xs : list value) : M value :=
  if Nat.eqb (length xs) n then py_expr e xs else raise TypeError.

(** [foo] as such a body. *)
Definition foo_expr : Expr :=
  EPrim Op.mul (EVar 0) (EPrim Op.add (EVar 0) (EConst 3.0)).

(** What the body computes in float arithmetic. *)
Fixpoint float_expr (e : Expr) (env : list float) : float :=
  match e with
  | EVar i => default 0%float (env !! i)
  | EConst c => c
  | EPrim Op.add e1 e2 => float_expr e1 env + float_expr e2 env
  | EPrim Op.mul e1 e2 => float_expr e1 env * float_expr e2 env
  | ELet e1 e2 => float_expr e2 (env ++ [float_expr e1 env])
  end.

(** The body rewritten by hand the way [foo_dual] is: [add_dual] for [add],
    [mul_dual] for [mul] and [DualNumber(c, 0.0)] for a literal [c]. *)
Fixpoint dual_expr (e : Expr) (env : list DualNumber) : DualNumber :=
  match e with
  | EVar i => default {| primal := 0; tangent := 0 |} (env !! i)
  | EConst c => {| primal := c; tangent := 0.0 |}
  | EPrim Op.add e1 e2 => add_dual (dual_expr e1 env) (dual_expr e2 env)
  | EPrim Op.mul e1 e2 => mul_dual (dual_expr e1 env) (dual_expr e2 env)
  | ELet e1 e2 => dual_expr e2 (env ++ [dual_expr e1 env])
  end.

(** The primitive invocations of a body, in the order they are made. *)
Fixpoint invocations (e : Expr) : list Op.t :=
  match e with
  | EVar _ | EConst _ => []
  | EPrim o e1 e2 => invocations e1 ++ invocations e2 ++ [o]
  | ELet e1 e2 => invocations e1 ++ invocations e2
  end.

(** What staging a body amounts to, with the atoms [atoms] for the names
    in scope and the name counter at [c]: the equations to append, the atom
    for the result and the counter afterwards. *)
Record Staged := { new_equations : list Equation; result_atom : value; counter : nat }.

Fixpoint stage (e : Expr) (atoms : list value) (c : nat) : Staged :=
  match e with
  | EVar i =>
      {| new_equations := []; result_atom := default (VFloat 0) (atoms !! i);
         counter := c |}
  | EConst x => {| new_equations := []; result_atom := VFloat x; counter := c |}
  | EPrim o e1 e2 =>
      let r1 := stage e1 atoms c in
      let r2 := stage e2 atoms (counter r1) in
      let binder := var_name (S (counter r2)) in
      {| new_equations :=
           new_equations r1 ++ new_equations r2
           ++ [{| var := binder; op := o; args := [result_atom r1; result_atom r2] |}];
         result_atom := VStr binder;
         counter := S (counter r2) |}
  | ELet e1 e2 =>
      let r1 := stage e1 atoms c in
      let r2 := stage e2 (atoms ++ [result_atom r1]) (counter r1) in
      {| new_equations := new_equations r1 ++ new_equations r2;
         result_atom := result_atom r2;
         counter := counter r2 |}
  end.

(** The jaxpr of the function of [n] parameters with body [e]. *)
Definition jaxpr_of (n : nat) (e : Expr) : Jaxpr :=
  let r := stage e (map VStr (parameter_names n)) n in
  {| parameters := parameter_names n;
     equations := new_equations r;
     return_val := result_atom r |}.

(** The value of an atom in an environment, if its variable is bound. *)
Definition atom_value (env : gmap string value) (x : value) : option value :=
  match x with
  | VStr v => env !! v
  | _ => Some x
  end.

(** An atom is below [c] when it is a literal or a name the counter handed
    out at or before [c]. *)
Definition atom_below (c : nat) (x : value) : Prop :=
  forall v, x = VStr v -> exists j, j <= c /\ v = var_name j.

(** A value stands for a dual number under a JVP interpreter when lifting
    it gives the interpreter's dual number of this primal and tangent. *)
Definition dual_of (self : Interpreter) (v : value) (d : DualNumber) : Prop :=
  JVPInterpreter.lift self v
  = TaggedDualNumber self (VFloat (primal d)) (VFloat (tangent d)).

(** A computation is stateless when, on every exit path, it leaves the
    whole state as it found it. *)
Definition stateless {A} (m : M A) : Prop :=
  forall s, (m s).2 = s.

(** An interpreter does not stage when it is the evaluating interpreter or
    a JVP interpreter over one that does not stage. *)
Fixpoint no_staging (i : Interpreter) : Prop :=
  match i with
  | EvalInterpreter => True
  | StagingInterpreter _ => False
  | JVPInterpreter _ prev => no_staging prev
  end.

(** * Properties *)

(** ** The dispatch context *)

Lemma set_current_id s : set_current (current_interpreter s) s = s.
Proof. by destruct s. Qed.

Lemma set_current_twice i j s : set_current i (set_current j s) = set_current i s.
Proof. reflexivity. Qed.

Lemma set_interpreter_current {A} i (body : M A) s :
  current_interpreter (set_interpreter i body s).2 = current_interpreter s.
Proof.
  unfold set_interpreter, try_finally.
  by destruct (body (set_current i s)).
Qed.

Lemma set_interpreter_outcome {A} i (body : M A) s :
  (set_interpreter i body s).1 = (body (set_current i s)).1.
Proof.
  unfold set_interpreter, try_finally.
  by destruct (body (set_current i s)).
Qed.

Create HintDb keeps.

Lemma keeps_ret {A} (a : A) : keeps_current (ret a).
Proof. by intros s. Qed.

Lemma keeps_raise {A} e : keeps_current (@raise A e).
Proof. by intros s. Qed.

Lemma keeps_bind {A B} (m : M A) (k : A -> M B) :
  keeps_current m -> (forall a, keeps_current (k a)) -> keeps_current (bind m k).
Proof.
  intros Hm Hk s. unfold bind.
  specialize (Hm s). destruct (m s) as [[a|e] s']; simpl in *.
  - by rewrite Hk.
  - done.
Qed.

Lemma keeps_set_interpreter {A} i (body : M A) : keeps_current (set_interpreter i body).
Proof. intros s. apply set_interpreter_current. Qed.

Lemma keeps_unpack2 {A} (l : list A) : keeps_current (unpack2 l).
Proof. intros s. by destruct l as [|? [|? [|]]]. Qed.

Lemma keeps_get_primal x : keeps_current (get_primal x).
Proof. intros s. by destruct x. Qed.

Lemma keeps_get_tangent x : keeps_current (get_tangent x).
Proof. intros s. by destruct x. Qed.

#[global] Hint Resolve keeps_ret keeps_raise keeps_set_interpreter keeps_unpack2
  keeps_get_primal keeps_get_tangent : keeps.

Ltac keeps_step :=
  first [ solve [auto with keeps] | apply keeps_bind; [| intros ?] ].

Lemma keeps_Eval_interpret_op op args : keeps_current (EvalInterpreter.interpret_op op args).
Proof.
  intros s. unfold EvalInterpreter.interpret_op.
  destruct (forallb isinstance_float args); [|done].
  destruct op, args as [|x [|y [|]]]; try done;
    by destruct x, y.
Qed.

Lemma keeps_get_object a : keeps_current (StagingInterpreter.get_object a).
Proof. intros s. unfold StagingInterpreter.get_object. by destruct (objects s !! a). Qed.

Lemma keeps_fresh_var a : keeps_current (StagingInterpreter.fresh_var a).
Proof.
  unfold StagingInterpreter.fresh_var.
  apply keeps_bind; [apply keeps_get_object | by intros o s].
Qed.

Lemma keeps_append_equation a e : keeps_current (StagingInterpreter.append_equation a e).
Proof.
  unfold StagingInterpreter.append_equation.
  apply keeps_bind; [apply keeps_get_object | by intros o s].
Qed.

#[global] Hint Resolve keeps_Eval_interpret_op keeps_get_object keeps_fresh_var
  keeps_append_equation : keeps.

Lemma keeps_Staging_interpret_op a op args :
  keeps_current (StagingInterpreter.interpret_op a op args).
Proof. unfold StagingInterpreter.interpret_op. repeat keeps_step. Qed.

Lemma keeps_Staging_new : keeps_current StagingInterpreter.new.
Proof. by intros s. Qed.

Lemma keeps_JVP_new prev : keeps_current (JVPInterpreter.new prev).
Proof. by intros s. Qed.

#[global] Hint Resolve keeps_Staging_interpret_op keeps_Staging_new keeps_JVP_new : keeps.

(** Every interpreter's rule keeps the current interpreter: the evaluating
    and staging rules never assign it, and the JVP rule runs inside
    [set_interpreter]. *)
Lemma keeps_interpret_op i op args : keeps_current (interpret_op i op args).
Proof.
  destruct i; simpl; auto with keeps.
  unfold JVPInterpreter.interpret_op. auto with keeps.
Qed.

Lemma keeps_dispatch op args : keeps_current (dispatch op args).
Proof. intros s. unfold dispatch. apply keeps_interpret_op. Qed.

Lemma keeps_add x y : keeps_current (add x y).
Proof. apply keeps_dispatch. Qed.

Lemma keeps_mul x y : keeps_current (mul x y).
Proof. apply keeps_dispatch. Qed.

#[global] Hint Resolve keeps_interpret_op keeps_dispatch keeps_add keeps_mul : keeps.

Lemma keeps_jvp f primal tangent : keeps_current (jvp f primal tangent).
Proof.
  unfold jvp. apply keeps_bind; [by intros s|intros prev].
  repeat keeps_step.
Qed.

Lemma keeps_fresh_vars a n : keeps_current (fresh_vars a n).
Proof. induction n; simpl; repeat keeps_step. Qed.

#[global] Hint Resolve keeps_jvp keeps_fresh_vars : keeps.

Lemma keeps_build_jaxpr f n : keeps_current (build_jaxpr f n).
Proof. unfold build_jaxpr. repeat keeps_step. Qed.

Lemma keeps_eval_atom env x : keeps_current (eval_atom env x).
Proof. intros s. destruct x; simpl; try done. by destruct (env !! s0). Qed.

Lemma keeps_tuple_of {A B} (g : A -> M B) xs :
  (forall x, keeps_current (g x)) -> keeps_current (tuple_of g xs).
Proof. intros Hg. induction xs; simpl; repeat keeps_step. Qed.

#[global] Hint Resolve keeps_build_jaxpr keeps_eval_atom : keeps.

Lemma keeps_eval_equations eqns env : keeps_current (eval_equations eqns env).
Proof.
  revert env. induction eqns as [|e eqns IH]; intros env; simpl.
  - auto with keeps.
  - apply keeps_bind; [apply keeps_tuple_of; auto with keeps | intros vs].
    apply keeps_bind; [auto with keeps | intros v]. apply IH.
Qed.

Lemma keeps_eval_jaxpr j xs : keeps_current (eval_jaxpr j xs).
Proof.
  unfold eval_jaxpr. apply keeps_bind; [apply keeps_eval_equations | auto with keeps].
Qed.

(** C2. Context restoration: [with set_interpreter(I): body] runs [body] with
    [I] current and, whether [body] returns or raises, leaves
    [current_interpreter] as it was immediately before entry, propagating
    the outcome of [body]; so do the transformations built on it, [jvp] and
    [build_jaxpr], for every function they are applied to. *)
Theorem context_restoration :
  (forall A (I : Interpreter) (body : M A) (s : State),
     current_interpreter (set_interpreter I body s).2 = current_interpreter s
     /\ (set_interpreter I body s).1 = (body (set_current I s)).1
     /\ (forall e s', body (set_current I s) = (Raise e, s') ->
           set_interpreter I body s = (Raise e, set_current (current_interpreter s) s')))
  /\ (forall f primal tangent s,
        current_interpreter (jvp f primal tangent s).2 = current_interpreter s)
  /\ (forall f num_args s,
        current_interpreter (build_jaxpr f num_args s).2 = current_interpreter s).
Proof.
  split; [|split].
  - intros A I body s. split; [apply set_interpreter_current|].
    split; [apply set_interpreter_outcome|].
    intros e s' H. unfold set_interpreter, try_finally. by rewrite H.
  - intros. apply keeps_jvp.
  - intros. apply keeps_build_jaxpr.
Qed.

Lemma context_restoration_witness :
  set_interpreter (JVPInterpreter 1 EvalInterpreter) (@raise value ValueError)
    initial_state
  = (Raise ValueError, initial_state).
Proof.
  apply (proj2 (proj2 (proj1 context_restoration value
                         (JVPInterpreter 1 EvalInterpreter) (raise ValueError)
                         initial_state))
           ValueError (set_current (JVPInterpreter 1 EvalInterpreter) initial_state)).
  reflexivity.
Defined.

(** ** The evaluating interpreter *)

Lemma forallb_isinstance_float_false args :
  (exists a, a ∈ args /\ isinstance_float a = false) ->
  forallb isinstance_float args = false.
Proof.
  intros (a & Hin & Ha). induction Hin as [a l|a b l Hin IH]; simpl.
  - by rewrite Ha.
  - rewrite IH by done. apply andb_false_r.
Qed.

(** C7. Evaluating-interpreter type error: whatever the operation, if some
    argument is not a float the evaluating interpreter's [interpret_op]
    fails at once, with the [AssertionError] of its [assert] (the spec's
    [TypeMismatch]) and the state untouched; applied to two floats it returns
    their sum for [Op.add] and their product for [Op.mul]. *)
Theorem Eval_interpret_op_spec (op : Op.t) (args : list value) (s : State) :
  ((exists a, a ∈ args /\ isinstance_float a = false) ->
     interpret_op EvalInterpreter op args s = (Raise AssertionError, s))
  /\ (forall x y, args = [VFloat x; VFloat y] ->
        interpret_op EvalInterpreter op args s =
          (Ok (VFloat match op with Op.add => x + y | Op.mul => x * y end), s)).
Proof.
  split.
  - intros H. simpl. unfold EvalInterpreter.interpret_op.
    by rewrite forallb_isinstance_float_false.
  - intros x y ->. by destruct op.
Qed.

Lemma Eval_interpret_op_spec_witness :
  interpret_op EvalInterpreter Op.add [VFloat 2.0; VStr "v_1"] initial_state
    = (Raise AssertionError, initial_state)
  /\ interpret_op EvalInterpreter Op.mul [VFloat 2.0; VFloat 5.0] initial_state
    = (Ok (VFloat 10.0), initial_state).
Proof.
  split.
  - apply (proj1 (Eval_interpret_op_spec Op.add [VFloat 2.0; VStr "v_1"] initial_state)).
    exists (VStr "v_1"). split; [|reflexivity].
    apply list_elem_of_further, list_elem_of_here.
  - apply (proj2 (Eval_interpret_op_spec Op.mul [VFloat 2.0; VFloat 5.0] initial_state)
             2.0%float 5.0%float).
    reflexivity.
Defined.

(** Two floats are the only arguments the rules accept: with all arguments
    floats but not exactly two of them, the unpacking [x, y = args] raises. *)
Lemma Eval_interpret_op_arity op args s :
  forallb isinstance_float args = true -> length args <> 2 ->
  interpret_op EvalInterpreter op args s = (Raise ValueError, s).
Proof.
  intros Hf Hlen. simpl. unfold EvalInterpreter.interpret_op. rewrite Hf.
  destruct op, args as [|x [|y [|z l]]]; simpl in *; first [done | lia].
Qed.

(** The failure surfaces through the user-facing functions. *)
Lemma add_type_error x y s :
  current_interpreter s = EvalInterpreter ->
  isinstance_float x && isinstance_float y = false ->
  add x y s = (Raise AssertionError, s).
Proof.
  intros Hc Hf. unfold add, dispatch. rewrite Hc. simpl.
  unfold EvalInterpreter.interpret_op. simpl. rewrite andb_true_r. by rewrite Hf.
Qed.

(** ** The JVP interpreter *)

Lemma is_refl i : is_ i i = true.
Proof. destruct i; simpl; auto using Nat.eqb_refl. Qed.

Lemma lift_owned self i p t :
  is_ i self = true ->
  JVPInterpreter.lift self (TaggedDualNumber i p t) = TaggedDualNumber i p t.
Proof. intros H. simpl. by rewrite H. Qed.

Lemma lift_other_owner self i p t :
  is_ i self = false ->
  JVPInterpreter.lift self (TaggedDualNumber i p t)
    = TaggedDualNumber self (TaggedDualNumber i p t) (VFloat 0.0).
Proof. intros H. simpl. by rewrite H. Qed.

Lemma lift_is_dual self x :
  exists i p t, JVPInterpreter.lift self x = TaggedDualNumber i p t /\ is_ i self = true.
Proof.
  destruct x as [x|v|i p t]; simpl.
  - eexists _, _, _. split; [done|apply is_refl].
  - eexists _, _, _. split; [done|apply is_refl].
  - destruct (is_ i self) eqn:E.
    + by eexists _, _, _.
    + eexists _, _, _. split; [done|apply is_refl].
Qed.

Lemma dispatch_at i op args s :
  current_interpreter s = i -> dispatch op args s = interpret_op i op args s.
Proof. intros <-. reflexivity. Qed.

Lemma bind_ext_at {A B} (m1 m2 : M A) (k1 k2 : A -> M B) s :
  m1 s = m2 s ->
  (forall a s', m1 s = (Ok a, s') -> k1 a s' = k2 a s') ->
  bind m1 k1 s = bind m2 k2 s.
Proof.
  intros Hm Hk. unfold bind. rewrite <- Hm.
  destruct (m1 s) as [[a|e] s']; [by apply Hk|done].
Qed.

Lemma bind_ret_l {A B} (a : A) (k : A -> M B) s : bind (ret a) k s = k a s.
Proof. reflexivity. Qed.

Lemma interpret_op_current i op args s r s' :
  interpret_op i op args s = (r, s') -> current_interpreter s' = current_interpreter s.
Proof. intros H. pose proof (keeps_interpret_op i op args s) as K. by rewrite H in K. Qed.

(** The JVP rule, as the source has it: the component arithmetic goes
    through the user-facing [add] and [mul], which read the global
    [current_interpreter]; under [set_interpreter(prev_interpreter)] that is
    [prev_interpreter] at every call, because each call keeps the current
    interpreter. *)
Lemma JVP_interpret_op_unfold a prev op args s :
  interpret_op (JVPInterpreter a prev) op args s
  = JVPInterpreter.interpret_op add mul (JVPInterpreter a prev) prev op args s.
Proof.
  simpl. unfold JVPInterpreter.interpret_op, set_interpreter, try_finally.
  match goal with |- (let (_, _) := ?b1 ?s0 in _) = (let (_, _) := ?b2 _ in _) =>
    assert (forall s1, current_interpreter s1 = prev -> b1 s1 = b2 s1) as Hbody
  end; [|by rewrite Hbody].
  intros s1 H1.
  destruct args as [|x [|y [|z l]]]; [by destruct op..| |by destruct op].
  destruct (lift_is_dual (JVPInterpreter a prev) x) as (ix & px & tx & Hx & Hix).
  destruct (lift_is_dual (JVPInterpreter a prev) y) as (iy & py & ty & Hy & Hiy).
  destruct op; simpl; rewrite Hx, Hy;
    cbn [bind unpack2 ret];
    rewrite ?(lift_owned _ _ _ _ Hix), ?(lift_owned _ _ _ _ Hiy);
    cbn [bind ret get_primal get_tangent];
    repeat (rewrite ?bind_ret_l; cbn beta; apply bind_ext_at;
            [symmetry; by apply dispatch_at
            |let Hs := fresh "Hs" in
             intros ? ? Hs; apply interpret_op_current in Hs; rewrite H1 in Hs;
             clear H1; rename Hs into H1]);
    reflexivity.
Qed.

Lemma lift_not_owned self v :
  (forall i p t, v = TaggedDualNumber i p t -> is_ i self = false) ->
  JVPInterpreter.lift self v = TaggedDualNumber self v (VFloat 0.0).
Proof.
  intros H. destruct v as [x|x|i p t]; try done.
  apply lift_other_owner. by eapply H.
Qed.

(** The rules over lifted arguments, with the component arithmetic written
    with the user-facing [add] and [mul]. *)
Lemma JVP_rules a prev x y ix px tx iy py ty s :
  JVPInterpreter.lift (JVPInterpreter a prev) x = TaggedDualNumber ix px tx ->
  JVPInterpreter.lift (JVPInterpreter a prev) y = TaggedDualNumber iy py ty ->
  interpret_op (JVPInterpreter a prev) Op.add [x; y] s
    = set_interpreter prev
        (p <- add px py ;;
         t <- add tx ty ;;
         ret (TaggedDualNumber (JVPInterpreter a prev) p t)) s
  /\ interpret_op (JVPInterpreter a prev) Op.mul [x; y] s
    = set_interpreter prev
        (p <- mul px py ;;
         t1 <- mul px ty ;;
         t2 <- mul tx py ;;
         t <- add t1 t2 ;;
         ret (TaggedDualNumber (JVPInterpreter a prev) p t)) s.
Proof.
  intros Hx Hy.
  assert (is_ ix (JVPInterpreter a prev) = true) as Hix.
  { destruct (lift_is_dual (JVPInterpreter a prev) x) as (? & ? & ? & E & ?). congruence. }
  assert (is_ iy (JVPInterpreter a prev) = true) as Hiy.
  { destruct (lift_is_dual (JVPInterpreter a prev) y) as (? & ? & ? & E & ?). congruence. }
  split; rewrite JVP_interpret_op_unfold; unfold JVPInterpreter.interpret_op;
    simpl; rewrite Hx, Hy; unfold set_interpreter, try_finally;
    cbn [bind unpack2 ret];
    rewrite ?(lift_owned _ _ _ _ Hix), ?(lift_owned _ _ _ _ Hiy);
    reflexivity.
Qed.

Lemma set_interpreter_pure {A} i (body : M A) r s :
  body (set_current i s) = (r, set_current i s) ->
  set_interpreter i body s = (r, s).
Proof.
  intros H. unfold set_interpreter, try_finally. rewrite H.
  by rewrite set_current_twice, set_current_id.
Qed.

(** Over the evaluating interpreter the component arithmetic is float
    arithmetic and the state is left as it was. *)
Lemma JVP_rules_over_Eval a x y ix px tx iy py ty s :
  JVPInterpreter.lift (JVPInterpreter a EvalInterpreter) x
    = TaggedDualNumber ix (VFloat px) (VFloat tx) ->
  JVPInterpreter.lift (JVPInterpreter a EvalInterpreter) y
    = TaggedDualNumber iy (VFloat py) (VFloat ty) ->
  interpret_op (JVPInterpreter a EvalInterpreter) Op.add [x; y] s
    = (Ok (TaggedDualNumber (JVPInterpreter a EvalInterpreter)
             (VFloat (px + py)) (VFloat (tx + ty))), s)
  /\ interpret_op (JVPInterpreter a EvalInterpreter) Op.mul [x; y] s
    = (Ok (TaggedDualNumber (JVPInterpreter a EvalInterpreter)
             (VFloat (px * py)) (VFloat (px * ty + tx * py))), s).
Proof.
  intros Hx Hy.
  destruct (JVP_rules a EvalInterpreter x y _ _ _ _ _ _ s Hx Hy) as [-> ->].
  split; by apply set_interpreter_pure.
Qed.

(** C4. JVP primitive rules.  [lift] returns a dual number owned by this
    interpreter unchanged and wraps any other value with tangent [0.0].  With
    [x] and [y] lifted to primal-tangent pairs, [Op.add] yields the dual
    number of [px + py] and [tx + ty], and [Op.mul] the dual number of
    [px * py] and [px * ty + tx * py], owned by this interpreter, where the
    sums and products are the user-facing [add] and [mul] run with the
    interpreter that was current at construction ([prev_interpreter]) made
    current; over the evaluating interpreter they are the float sums and
    products. *)
Theorem JVP_primitive_rules :
  (forall self i p t, is_ i self = true ->
     JVPInterpreter.lift self (TaggedDualNumber i p t) = TaggedDualNumber i p t)
  /\ (forall self v,
        (forall i p t, v = TaggedDualNumber i p t -> is_ i self = false) ->
        JVPInterpreter.lift self v = TaggedDualNumber self v (VFloat 0.0))
  /\ (forall a prev x y ix px tx iy py ty s,
        let self := JVPInterpreter a prev in
        JVPInterpreter.lift self x = TaggedDualNumber ix px tx ->
        JVPInterpreter.lift self y = TaggedDualNumber iy py ty ->
        interpret_op self Op.add [x; y] s
          = set_interpreter prev
              (p <- add px py ;;
               t <- add tx ty ;;
               ret (TaggedDualNumber self p t)) s
        /\ interpret_op self Op.mul [x; y] s
          = set_interpreter prev
              (p <- mul px py ;;
               t1 <- mul px ty ;;
               t2 <- mul tx py ;;
               t <- add t1 t2 ;;
               ret (TaggedDualNumber self p t)) s)
  /\ (forall a x y ix px tx iy py ty s,
        let self := JVPInterpreter a EvalInterpreter in
        JVPInterpreter.lift self x = TaggedDualNumber ix (VFloat px) (VFloat tx) ->
        JVPInterpreter.lift self y = TaggedDualNumber iy (VFloat py) (VFloat ty) ->
        interpret_op self Op.add [x; y] s
          = (Ok (TaggedDualNumber self (VFloat (px + py)) (VFloat (tx + ty))), s)
        /\ interpret_op self Op.mul [x; y] s
          = (Ok (TaggedDualNumber self (VFloat (px * py))
                   (VFloat (px * ty + tx * py))), s)).
Proof.
  split; [exact lift_owned|].
  split; [exact lift_not_owned|].
  split; [exact JVP_rules|exact JVP_rules_over_Eval].
Qed.

Lemma JVP_primitive_rules_witness :
  let self := JVPInterpreter 1 EvalInterpreter in
  interpret_op self Op.add [TaggedDualNumber self (VFloat 2.0) (VFloat 1.0); VFloat 3.0]
    initial_state
    = (Ok (TaggedDualNumber self (VFloat 5.0) (VFloat 1.0)), initial_state)
  /\ interpret_op self Op.mul
       [TaggedDualNumber self (VFloat 2.0) (VFloat 1.0);
        TaggedDualNumber self (VFloat 5.0) (VFloat 1.0)] initial_state
    = (Ok (TaggedDualNumber self (VFloat 10.0) (VFloat 7.0)), initial_state).
Proof.
  intros self. split.
  - apply (proj1 (proj2 (proj2 (proj2 JVP_primitive_rules)) 1
                   (TaggedDualNumber self (VFloat 2.0) (VFloat 1.0)) (VFloat 3.0)
                   self 2.0%float 1.0%float self 3.0%float 0.0%float initial_state
                   eq_refl eq_refl)).
  - apply (proj2 (proj2 (proj2 (proj2 JVP_primitive_rules)) 1
                   (TaggedDualNumber self (VFloat 2.0) (VFloat 1.0))
                   (TaggedDualNumber self (VFloat 5.0) (VFloat 1.0))
                   self 2.0%float 1.0%float self 5.0%float 1.0%float initial_state
                   eq_refl eq_refl)).
Defined.

(** ** Running nested differentiation *)

Lemma is_JVP_same a p q : is_ (JVPInterpreter a p) (JVPInterpreter a q) = true.
Proof. apply Nat.eqb_refl. Qed.

Lemma is_JVP_other a b p q :
  a <> b -> is_ (JVPInterpreter a p) (JVPInterpreter b q) = false.
Proof. intros H. by apply Nat.eqb_neq. Qed.

Ltac run_py :=
  repeat first
    [ progress cbv [bind ret raise jvp derivative f foo add mul dispatch interpret_op
                    get_current_interpreter
                    JVPInterpreter.interpret_op JVPInterpreter.lift
                    JVPInterpreter.dual_number JVPInterpreter.new
                    set_interpreter try_finally set_current
                    current_interpreter objects next_addr
                    unpack2 get_primal get_tangent star1
                    EvalInterpreter.interpret_op EvalInterpreter.float_add
                    EvalInterpreter.float_mul forallb isinstance_float andb
                    map fst snd nth_order_derivative]
    | rewrite is_JVP_same
    | rewrite is_JVP_other by lia ].

(** A function that ignores its argument and returns a captured value
    [x] has derivative zero, whatever [x] is, as long as [x] is not a dual
    number of the interpreter that [jvp] creates for this differentiation. *)
Lemma jvp_captured_constant x primal tangent s :
  (forall i p t, x = TaggedDualNumber i p t ->
     is_ i (JVPInterpreter (next_addr s) (current_interpreter s)) = false) ->
  (jvp (fun _ => ret x) primal tangent s).1 = Ok (x, VFloat 0.0).
Proof.
  intros H. unfold jvp.
  cbv [bind ret JVPInterpreter.new get_current_interpreter set_interpreter
       try_finally fst snd current_interpreter set_current].
  by rewrite lift_not_owned.
Qed.

Lemma jvp_f_zero s :
  current_interpreter s = EvalInterpreter ->
  (jvp f (VFloat 0.0) (VFloat 1.0) s).1 = Ok (VFloat 0.0, VFloat 0.0).
Proof.
  destruct s as [c o n]. simpl. intros ->.
  run_py. reflexivity.
Qed.

(** C1. Perturbation confusion avoidance: with [f(x) = mul(x, derivative(g, 0.0))]
    and [g(y) = x], started under the evaluating interpreter,
    [jvp(f, 0.0, 1.0)] has tangent [0.0]; [lift] treats a dual number owned by
    a different interpreter as a constant, wrapping it with tangent [0.0], so
    that differentiating a function that returns such a captured value gives
    tangent [0.0]. *)
Theorem perturbation_confusion_avoided :
  (forall s, current_interpreter s = EvalInterpreter ->
     (jvp f (VFloat 0.0) (VFloat 1.0) s).1 = Ok (VFloat 0.0, VFloat 0.0)
     /\ (derivative f (VFloat 0.0) s).1 = Ok (VFloat 0.0))
  /\ (forall self i p t, is_ i self = false ->
        JVPInterpreter.lift self (TaggedDualNumber i p t)
          = TaggedDualNumber self (TaggedDualNumber i p t) (VFloat 0.0))
  /\ (forall x primal tangent s,
        (forall i p t, x = TaggedDualNumber i p t ->
           is_ i (JVPInterpreter (next_addr s) (current_interpreter s)) = false) ->
        (jvp (fun _ => ret x) primal tangent s).1 = Ok (x, VFloat 0.0)).
Proof.
  split; [|split].
  - intros s Hs. split; [by apply jvp_f_zero|].
    pose proof (jvp_f_zero s Hs) as H. unfold derivative, bind.
    by destruct (jvp f (VFloat 0) (VFloat 1) s) as [[[p t]|e] s']; simplify_eq/=.
  - exact lift_other_owner.
  - exact jvp_captured_constant.
Qed.

Lemma perturbation_confusion_avoided_witness :
  (jvp f (VFloat 0.0) (VFloat 1.0) initial_state).1 = Ok (VFloat 0.0, VFloat 0.0)
  /\ (derivative f (VFloat 0.0) initial_state).1 = Ok (VFloat 0.0).
Proof.
  apply (proj1 perturbation_confusion_avoided initial_state). reflexivity.
Defined.

(** C3. Higher-order derivatives: started under the evaluating interpreter,
    [nth_order_derivative(n, foo, 2.0)] returns [10.0], [7.0], [2.0], [0.0]
    and [0.0] for [n] from 0 to 4. *)
Theorem higher_order_derivatives (s : State) :
  current_interpreter s = EvalInterpreter ->
  (nth_order_derivative 0 foo (VFloat 2.0) s).1 = Ok (VFloat 10.0)
  /\ (nth_order_derivative 1 foo (VFloat 2.0) s).1 = Ok (VFloat 7.0)
  /\ (nth_order_derivative 2 foo (VFloat 2.0) s).1 = Ok (VFloat 2.0)
  /\ (nth_order_derivative 3 foo (VFloat 2.0) s).1 = Ok (VFloat 0.0)
  /\ (nth_order_derivative 4 foo (VFloat 2.0) s).1 = Ok (VFloat 0.0).
Proof.
  destruct s as [c o n]. simpl. intros ->.
  repeat split; run_py; reflexivity.
Qed.

Lemma higher_order_derivatives_witness :
  (nth_order_derivative 0 foo (VFloat 2.0) initial_state).1 = Ok (VFloat 10.0)
  /\ (nth_order_derivative 1 foo (VFloat 2.0) initial_state).1 = Ok (VFloat 7.0)
  /\ (nth_order_derivative 2 foo (VFloat 2.0) initial_state).1 = Ok (VFloat 2.0)
  /\ (nth_order_derivative 3 foo (VFloat 2.0) initial_state).1 = Ok (VFloat 0.0)
  /\ (nth_order_derivative 4 foo (VFloat 2.0) initial_state).1 = Ok (VFloat 0.0).
Proof.
  apply (higher_order_derivatives initial_state). reflexivity.
Defined.

(** The first derivative, as the pair [jvp] returns. *)
Lemma jvp_foo s :
  current_interpreter s = EvalInterpreter ->
  (jvp foo (VFloat 2.0) (VFloat 1.0) s).1 = Ok (VFloat 10.0, VFloat 7.0).
Proof.
  destruct s as [c o n]. simpl. intros ->.
  run_py. reflexivity.
Qed.

(** ** The staging interpreter *)

Lemma set_object_lookup a o s :
  objects (StagingInterpreter.set_object a o s) !! a = Some o.
Proof. apply lookup_insert_eq. Qed.

Lemma set_object_twice a o1 o2 s :
  StagingInterpreter.set_object a o2 (StagingInterpreter.set_object a o1 s)
  = StagingInterpreter.set_object a o2 s.
Proof. unfold StagingInterpreter.set_object. simpl. by rewrite insert_insert_eq. Qed.

Lemma get_object_spec a o s :
  objects s !! a = Some o -> StagingInterpreter.get_object a s = (Ok o, s).
Proof. intros H. unfold StagingInterpreter.get_object. by rewrite H. Qed.

Lemma fresh_var_spec a o s :
  objects s !! a = Some o ->
  StagingInterpreter.fresh_var a s
  = (Ok ("v_" +:+ pretty (S (name_counter o))),
     StagingInterpreter.set_object a
       {| staged_equations := staged_equations o;
          name_counter := S (name_counter o) |} s).
Proof.
  intros H. unfold StagingInterpreter.fresh_var, bind.
  by rewrite (get_object_spec _ _ _ H).
Qed.

Lemma append_equation_spec a o e s :
  objects s !! a = Some o ->
  StagingInterpreter.append_equation a e s
  = (Ok tt,
     StagingInterpreter.set_object a
       {| staged_equations := staged_equations o ++ [e];
          name_counter := name_counter o |} s).
Proof.
  intros H. unfold StagingInterpreter.append_equation, bind.
  by rewrite (get_object_spec _ _ _ H).
Qed.

(** One primitive invocation under the staging interpreter: the counter
    advances by one, exactly one equation, binding the new name, goes to the
    end of the list, and the new name is returned. *)
Lemma Staging_interpret_op_spec a o op0 args0 s :
  objects s !! a = Some o ->
  StagingInterpreter.interpret_op a op0 args0 s
  = let binder := "v_" +:+ pretty (S (name_counter o)) in
    (Ok (VStr binder),
     StagingInterpreter.set_object a
       {| staged_equations :=
            staged_equations o ++ [{| var := binder; op := op0; args := args0 |}];
          name_counter := S (name_counter o) |} s).
Proof.
  intros H. unfold StagingInterpreter.interpret_op, bind.
  rewrite (fresh_var_spec _ _ _ H).
  erewrite append_equation_spec by apply set_object_lookup.
  simpl. by rewrite set_object_twice.
Qed.

Lemma fresh_vars_spec a n : forall o s,
  objects s !! a = Some o ->
  fresh_vars a n s
  = (Ok (map (fun k => "v_" +:+ pretty k) (seq (S (name_counter o)) n)),
     StagingInterpreter.set_object a
       {| staged_equations := staged_equations o;
          name_counter := name_counter o + n |} s).
Proof.
  induction n as [|n IH]; intros o s H; simpl.
  - unfold ret. f_equal. destruct s as [c os na], o as [eqs k].
    unfold StagingInterpreter.set_object. simpl in *.
    rewrite Nat.add_0_r. by rewrite insert_id.
  - unfold bind. rewrite (fresh_var_spec _ _ _ H).
    erewrite IH by apply set_object_lookup. simpl.
    rewrite set_object_twice. do 3 f_equal. lia.
Qed.

Lemma dispatch_Staging a op0 args0 s :
  current_interpreter s = StagingInterpreter a ->
  dispatch op0 args0 s = StagingInterpreter.interpret_op a op0 args0 s.
Proof. intros H. unfold dispatch. by rewrite H. Qed.

Lemma bind_Ok {A B} (m : M A) (k : A -> M B) s a s' :
  m s = (Ok a, s') -> bind m k s = k a s'.
Proof. intros H. unfold bind. by rewrite H. Qed.

Lemma build_jaxpr_unfold f num_args s :
  build_jaxpr f num_args s
  = match f (map VStr (parameter_names num_args)) (staging_entry num_args s) with
    | (Ok result, s') =>
        match objects s' !! next_addr s with
        | Some o =>
            (Ok {| parameters := parameter_names num_args;
                   equations := staged_equations o;
                   return_val := result |},
             set_current (current_interpreter s) s')
        | None => (Raise AttributeError, set_current (current_interpreter s) s')
        end
    | (Raise e, s') => (Raise e, set_current (current_interpreter s) s')
    end.
Proof.
  unfold build_jaxpr.
  erewrite bind_Ok by reflexivity.
  erewrite bind_Ok by (apply fresh_vars_spec, lookup_insert_eq).
  cbn [staged_equations name_counter Nat.add].
  assert (set_current (StagingInterpreter (next_addr s))
            (StagingInterpreter.set_object (next_addr s)
               {| staged_equations := []; name_counter := num_args |}
               {| current_interpreter := current_interpreter s;
                  objects := <[next_addr s := {| staged_equations := [];
                                                 name_counter := 0 |}]> (objects s);
                  next_addr := S (next_addr s) |})
          = staging_entry num_args s) as E.
  { unfold staging_entry, set_current, StagingInterpreter.set_object. simpl.
    by rewrite insert_insert_eq. }
  unfold bind at 1, set_interpreter, try_finally. rewrite E.
  fold (parameter_names num_args).
  destruct (f _ _) as [[result|e] s']; [|done].
  unfold bind, StagingInterpreter.get_object. simpl.
  by destruct (objects s' !! next_addr s).
Qed.

Lemma build_jaxpr_foo s :
  (build_jaxpr (star1 foo) 1 s).1 = Ok jaxpr_foo.
Proof.
  rewrite build_jaxpr_unfold.
  unfold parameter_names. cbn [seq map star1]. unfold foo, add, mul.
  erewrite bind_Ok; cycle 1.
  { erewrite dispatch_Staging by reflexivity.
    apply Staging_interpret_op_spec, lookup_insert_eq. }
  cbn zeta. cbn [staged_equations name_counter app].
  erewrite dispatch_Staging by reflexivity.
  erewrite Staging_interpret_op_spec by apply set_object_lookup.
  cbn zeta. cbn [staged_equations name_counter app].
  rewrite set_object_lookup. reflexivity.
Qed.

(** ** Evaluating the jaxpr of [foo] *)

Lemma bind_ret_r {A} (m : M A) s : bind m ret s = m s.
Proof. unfold bind. by destruct (m s) as [[a|e] s']. Qed.

(** Evaluating the staged [foo] is running [foo]: under every interpreter
    and on every argument, each equation goes through the dispatch of the
    current interpreter, in the order of the calls in [foo]. *)
Lemma eval_jaxpr_foo x s : eval_jaxpr jaxpr_foo [x] s = foo x s.
Proof.
  unfold eval_jaxpr, jaxpr_foo, foo, add, mul.
  cbn [equations parameters return_val eval_equations args op var tuple_of
       dict_zip zip zip_with fold_left fst snd].
  unfold eval_atom. rewrite lookup_insert_eq.
  cbv [bind ret].
  destruct (dispatch Op.add [x; VFloat 3] s) as [[v|e] s1]; [|done].
  rewrite lookup_insert_ne by done. rewrite !lookup_insert_eq.
  destruct (dispatch Op.mul [x; v] s1) as [[r|e] s2]; [|done].
  by rewrite lookup_insert_eq.
Qed.

(** C5. Staging fidelity: from every state, [build_jaxpr(foo, 1)] returns a
    jaxpr with one parameter, two equations, the first applying [Op.add] and
    the second [Op.mul], in the order [foo] invokes them, and one return
    atom; evaluated on [2.0] under the evaluating interpreter it gives
    [10.0].  In general, a primitive invocation under the staging interpreter
    appends exactly one equation to the end of its list. *)
Theorem staging_fidelity :
  (forall s, exists j,
     (build_jaxpr (star1 foo) 1 s).1 = Ok j
     /\ parameters j = ["v_1"]
     /\ length (equations j) = 2
     /\ map op (equations j) = [Op.add; Op.mul]
     /\ equations j
        = [ {| var := "v_2"; op := Op.add; args := [VStr "v_1"; VFloat 3.0] |};
            {| var := "v_3"; op := Op.mul; args := [VStr "v_1"; VStr "v_2"] |} ]
     /\ return_val j = VStr "v_3"
     /\ forall s', current_interpreter s' = EvalInterpreter ->
          eval_jaxpr j [VFloat 2.0] s' = (Ok (VFloat 10.0), s'))
  /\ (forall a o op0 args0 s,
        current_interpreter s = StagingInterpreter a ->
        objects s !! a = Some o ->
        exists binder s',
          dispatch op0 args0 s = (Ok (VStr binder), s')
          /\ objects s' !! a
             = Some {| staged_equations :=
                         staged_equations o
                         ++ [{| var := binder; op := op0; args := args0 |}];
                       name_counter := S (name_counter o) |}).
Proof.
  split.
  - intros s. exists jaxpr_foo. split; [apply build_jaxpr_foo|].
    repeat (split; [reflexivity|]).
    intros s' Hs'. rewrite eval_jaxpr_foo.
    destruct s' as [c o n]. simpl in Hs'. by subst c.
  - intros a o op0 args0 s Hc Ho.
    rewrite (dispatch_Staging _ _ _ _ Hc), (Staging_interpret_op_spec _ _ _ _ _ Ho).
    eexists _, _. split; [reflexivity|]. apply set_object_lookup.
Qed.

Lemma staging_fidelity_witness :
  exists binder s',
    dispatch Op.add [VStr "v_1"; VFloat 3.0] (staging_entry 1 initial_state)
      = (Ok (VStr binder), s')
    /\ objects s' !! 1
       = Some {| staged_equations :=
                   [{| var := binder; op := Op.add; args := [VStr "v_1"; VFloat 3.0] |}];
                 name_counter := 2 |}.
Proof.
  apply (proj2 staging_fidelity 1 {| staged_equations := []; name_counter := 1 |}
           Op.add [VStr "v_1"; VFloat 3.0] (staging_entry 1 initial_state)).
  - reflexivity.
  - reflexivity.
Defined.

(** ** Differentiating the evaluation of a jaxpr *)

Lemma build_jaxpr_foo_run s :
  exists s', build_jaxpr (star1 foo) 1 s = (Ok jaxpr_foo, s')
             /\ current_interpreter s' = current_interpreter s.
Proof.
  pose proof (build_jaxpr_foo s) as H.
  pose proof (keeps_build_jaxpr (star1 foo) 1 s) as K.
  destruct (build_jaxpr (star1 foo) 1 s) as [r s']. simpl in *. subst r.
  by exists s'.
Qed.

(** Staging [foo] and evaluating the result is running [foo], in a state
    that differs only by the staging interpreter left behind. *)
Lemma staged_foo_spec x s :
  exists s', current_interpreter s' = current_interpreter s
             /\ staged_foo x s = foo x s'.
Proof.
  destruct (build_jaxpr_foo_run s) as (s' & Hb & Hc).
  exists s'. split; [done|].
  unfold staged_foo. rewrite (bind_Ok _ _ _ _ _ Hb). apply eval_jaxpr_foo.
Qed.

Lemma jvp_staged_foo s :
  current_interpreter s = EvalInterpreter ->
  (jvp staged_foo (VFloat 2.0) (VFloat 1.0) s).1 = Ok (VFloat 10.0, VFloat 7.0).
Proof.
  destruct s as [c o n]. simpl. intros ->.
  unfold jvp.
  cbv [bind JVPInterpreter.new get_current_interpreter JVPInterpreter.dual_number
       set_interpreter try_finally current_interpreter set_current objects next_addr].
  match goal with |- context [staged_foo ?x ?s0] =>
    destruct (staged_foo_spec x s0) as ([c' o' n'] & Hc & ->)
  end.
  simpl in Hc. subst c'.
  run_py. reflexivity.
Qed.

(** Staging the evaluation of the staged [foo] gives the jaxpr of [foo]
    again. *)
Lemma restage_foo s :
  build_jaxpr (star1 (fun x => eval_jaxpr jaxpr_foo [x])) 1 s
  = build_jaxpr (star1 foo) 1 s.
Proof.
  rewrite !build_jaxpr_unfold. simpl. by rewrite eval_jaxpr_foo.
Qed.

(** C6. Graph re-transformability: every equation of a jaxpr is evaluated by
    the dispatch of the current interpreter; the jaxpr that [build_jaxpr]
    returns for [foo] therefore evaluates, under every interpreter and on
    every argument, to what [foo] itself computes there; [jvp] of
    [lambda x: eval_jaxpr(build_jaxpr(foo, 1), (x,))] at primal [2.0] and
    tangent [1.0] returns [(10.0, 7.0)], as [jvp] of [foo] does; and staging
    the evaluation gives the jaxpr of [foo] again. *)
Theorem graph_retransformability :
  (forall eqn eqns env s,
     eval_equations (eqn :: eqns) env s
     = (vals <- tuple_of (eval_atom env) (args eqn) ;;
        v <- (fun s => interpret_op (current_interpreter s) (op eqn) vals s) ;;
        eval_equations eqns (<[var eqn := v]> env)) s)
  /\ (forall s0 j, (build_jaxpr (star1 foo) 1 s0).1 = Ok j ->
        (forall x s, eval_jaxpr j [x] s = foo x s)
        /\ (forall s, (build_jaxpr (star1 (fun x => eval_jaxpr j [x])) 1 s).1 = Ok j))
  /\ (forall s, current_interpreter s = EvalInterpreter ->
        (jvp staged_foo (VFloat 2.0) (VFloat 1.0) s).1 = Ok (VFloat 10.0, VFloat 7.0)
        /\ (jvp staged_foo (VFloat 2.0) (VFloat 1.0) s).1
           = (jvp foo (VFloat 2.0) (VFloat 1.0) s).1).
Proof.
  split; [reflexivity|]. split.
  - intros s0 j Hj. rewrite build_jaxpr_foo in Hj. injection Hj as <-.
    split; [apply eval_jaxpr_foo|].
    intros s. rewrite restage_foo. apply build_jaxpr_foo.
  - intros s Hs. split; [by apply jvp_staged_foo|].
    by rewrite jvp_staged_foo, jvp_foo.
Qed.

Lemma graph_retransformability_witness :
  (jvp staged_foo (VFloat 2.0) (VFloat 1.0) initial_state).1
    = Ok (VFloat 10.0, VFloat 7.0)
  /\ (jvp staged_foo (VFloat 2.0) (VFloat 1.0) initial_state).1
     = (jvp foo (VFloat 2.0) (VFloat 1.0) initial_state).1.
Proof.
  apply (proj2 (proj2 graph_retransformability) initial_state). reflexivity.
Defined.

(** ** Single static assignment *)

Lemma var_name_inj : Inj (=) (=) var_name.
Proof.
  intros k1 k2 H. unfold var_name in H.
  apply (inj (String.app "v_")) in H. by apply (inj pretty) in H.
Qed.

Lemma NoDup_var_names j n : NoDup (map var_name (seq j n)).
Proof.
  apply (NoDup_fmap_2 var_name), NoDup_seq.
Qed.

Lemma parameter_names_var_name n : parameter_names n = map var_name (seq 1 n).
Proof. reflexivity. Qed.

Lemma scoped_with_app ok bound new1 new2 :
  scoped_with ok bound new1 ->
  scoped_with ok (bound ++ map var new1) new2 ->
  scoped_with ok bound (new1 ++ new2).
Proof.
  revert bound. induction new1 as [|e new1 IH]; intros bound H1 H2; simpl in *.
  - by rewrite app_nil_r in H2.
  - destruct H1 as [He H1]. split; [done|].
    apply IH; [done|]. by rewrite <- app_assoc.
Qed.

Lemma scoped_with_impl (ok ok' : list Var -> value -> Prop) bound eqns :
  (forall b v, ok b v -> ok' b v) ->
  scoped_with ok bound eqns -> scoped_with ok' bound eqns.
Proof.
  intros Himpl. revert bound. induction eqns as [|e eqns IH]; intros bound; simpl.
  - done.
  - intros [He H]. split; [|by apply IH].
    eapply Forall_impl; [exact He|]. intros v. apply Himpl.
Qed.

Lemma var_names_app c n1 n2 :
  map var_name (seq (S c) n1) ++ map var_name (seq (S (c + n1)) n2)
  = map var_name (seq (S c) (n1 + n2)).
Proof. by rewrite seq_app, map_app. Qed.

(** *** A logic of staged computations *)

Section Staged.
Variable ok : list Var -> value -> Prop.
Hypothesis ok_mono : forall b b' v, b ⊆ b' -> ok b v -> ok b' v.
Hypothesis ok_float : forall b x, ok b (VFloat x).
Hypothesis ok_var : forall b x, x ∈ b -> ok b (VStr x).
Hypothesis ok_dual : forall b i p t, ok b (TaggedDualNumber i p t) <-> ok b p /\ ok b t.
Variable a : nat.

Lemma staged_ret {A} i bound (v : A) (Q : list Var -> A -> Prop) :
  Q bound v -> staged_at ok a i bound (ret v) Q.
Proof.
  intros HQ s o Hc Ho. exists v, [], s. simpl.
  rewrite !app_nil_r, Nat.add_0_r. destruct o. by repeat split.
Qed.

Lemma staged_bind {A B} i bound (m : M A) (k : A -> M B)
      (Q1 : list Var -> A -> Prop) (Q2 : list Var -> B -> Prop) :
  staged_at ok a i bound m Q1 ->
  (forall new r, Q1 (bound ++ new) r -> staged_at ok a i (bound ++ new) (k r) Q2) ->
  staged_at ok a i bound (bind m k) Q2.
Proof.
  intros Hm Hk s o Hc Ho.
  destruct (Hm s o Hc Ho) as (r1 & new1 & s1 & Hrun1 & Hc1 & Ho1 & Hn1 & Hs1 & HQ1).
  destruct (Hk _ _ HQ1 s1 _ Hc1 Ho1)
    as (r2 & new2 & s2 & Hrun2 & Hc2 & Ho2 & Hn2 & Hs2 & HQ2).
  simpl in *.
  exists r2, (new1 ++ new2), s2.
  split; [by rewrite (bind_Ok _ _ _ _ _ Hrun1)|].
  split; [done|]. split.
  { rewrite Ho2, <- app_assoc, length_app, Nat.add_assoc. done. }
  split.
  { by rewrite map_app, length_app, Hn1, Hn2, var_names_app. }
  split; [by apply scoped_with_app|].
  by rewrite map_app, app_assoc.
Qed.

Lemma staged_conseq {A} i bound (m : M A) (Q Q' : list Var -> A -> Prop) :
  staged_at ok a i bound m Q ->
  (forall b r, Q b r -> Q' b r) ->
  staged_at ok a i bound m Q'.
Proof.
  intros Hm HQ s o Hc Ho.
  destruct (Hm s o Hc Ho) as (r & new & s' & ? & ? & ? & ? & ? & ?).
  exists r, new, s'. eauto 10.
Qed.

Lemma staged_ext {A} i bound (m m' : M A) Q :
  (forall s, current_interpreter s = i -> m s = m' s) ->
  staged_at ok a i bound m' Q ->
  staged_at ok a i bound m Q.
Proof.
  intros Hext Hm s o Hc Ho. rewrite (Hext s Hc). by apply Hm.
Qed.

Lemma staged_set_interpreter {A} i j bound (body : M A) Q :
  staged_at ok a j bound body Q ->
  staged_at ok a i bound (set_interpreter j body) Q.
Proof.
  intros Hbody s o Hc Ho.
  destruct (Hbody (set_current j s) o eq_refl Ho)
    as (r & new & s' & Hrun & Hc' & Ho' & Hn & Hs & HQ).
  exists r, new, (set_current (current_interpreter s) s').
  unfold set_interpreter, try_finally. rewrite Hrun. by simpl.
Qed.

Lemma lift_ok self bound x :
  ok bound x ->
  exists i p t, JVPInterpreter.lift self x = TaggedDualNumber i p t
                /\ ok bound p /\ ok bound t.
Proof.
  intros Hx. destruct x as [x|x|i p t]; simpl.
  - eexists _, _, _. split; [done|]. by split.
  - eexists _, _, _. split; [done|]. by split.
  - destruct (is_ i self).
    + eexists _, _, _. split; [done|]. by apply (ok_dual bound i p t).
    + eexists _, _, _. split; [done|]. by split.
Qed.

Lemma ok_app_l b new v : ok b v -> ok (b ++ new) v.
Proof. apply ok_mono. intros x Hx. apply elem_of_app. by left. Qed.

(** A primitive invocation, under every interpreter that stages into [a]. *)
Lemma staged_dispatch i : forall bound o0 x y,
  stages_into a i ->
  ok bound x -> ok bound y ->
  staged_at ok a i bound (dispatch o0 [x; y]) ok.
Proof.
  induction i as [|addr prev IH|b]; intros bound o0 x y Hi Hx Hy; simpl in Hi.
  - done.
  - destruct (lift_ok (JVPInterpreter addr prev) bound x Hx)
      as (ix & px & tx & Ex & Hpx & Htx).
    destruct (lift_ok (JVPInterpreter addr prev) bound y Hy)
      as (iy & py & ty & Ey & Hpy & Hty).
    destruct o0.
    + eapply staged_ext.
      { intros s Hc. rewrite (dispatch_at _ _ _ _ Hc).
        apply (proj1 (JVP_rules addr prev x y _ _ _ _ _ _ s Ex Ey)). }
      apply staged_set_interpreter.
      eapply staged_bind; [by apply IH|]. intros new1 p Hp.
      eapply staged_bind; [apply IH; [done|by apply ok_app_l..]|]. intros new2 t Ht.
      apply staged_ret. apply ok_dual. split; [by apply ok_app_l|done].
    + eapply staged_ext.
      { intros s Hc. rewrite (dispatch_at _ _ _ _ Hc).
        apply (proj2 (JVP_rules addr prev x y _ _ _ _ _ _ s Ex Ey)). }
      apply staged_set_interpreter.
      eapply staged_bind; [by apply IH|]. intros new1 p Hp.
      eapply staged_bind; [apply IH; [done|by apply ok_app_l..]|]. intros new2 t1 Ht1.
      eapply staged_bind; [apply IH; [done|by do 2 apply ok_app_l..]|].
      intros new3 t2 Ht2.
      eapply staged_bind; [apply IH; [done|by apply ok_app_l|done]|].
      intros new4 t Ht.
      apply staged_ret. apply ok_dual. split; [by do 3 apply ok_app_l|done].
  - subst b. intros s o Hc Ho.
    rewrite (dispatch_Staging _ _ _ _ Hc), (Staging_interpret_op_spec _ _ _ _ _ Ho).
    cbn zeta. fold (var_name (S (name_counter o))).
    eexists _, [_], _. split; [reflexivity|].
    split; [done|]. split; [by rewrite set_object_lookup, Nat.add_1_r|].
    split; [done|]. split.
    + split; [|done]. by repeat constructor.
    + apply ok_var. apply elem_of_app. right. apply list_elem_of_here.
Qed.
End Staged.

Section StagedRun.
Variable ok : list Var -> value -> Prop.
Hypothesis ok_mono : forall b b' v, b ⊆ b' -> ok b v -> ok b' v.
Hypothesis ok_float : forall b x, ok b (VFloat x).
Hypothesis ok_var : forall b x, x ∈ b -> ok b (VStr x).
Hypothesis ok_dual : forall b i p t, ok b (TaggedDualNumber i p t) <-> ok b p /\ ok b t.
Variable a : nat.

(** [jvp] of a function that is staged under every interpreter that stages
    into [a]. *)
Lemma staged_jvp i bound (g : value -> M value) primal tangent :
  stages_into a i ->
  ok bound primal -> ok bound tangent ->
  (forall j x, stages_into a j -> ok bound x -> staged_at ok a j bound (g x) ok) ->
  staged_at ok a i bound (jvp g primal tangent)
            (fun b pt => ok b pt.1 /\ ok b pt.2).
Proof.
  intros Hi Hp Ht Hg s o Hc Ho. unfold jvp.
  cbv [bind JVPInterpreter.new get_current_interpreter].
  set (J := JVPInterpreter (next_addr s) (current_interpreter s)).
  set (s1 := {| current_interpreter := current_interpreter s;
                objects := objects s; next_addr := S (next_addr s) |}).
  assert (staged_at ok a i bound
            (set_interpreter J (g (JVPInterpreter.dual_number J primal tangent))) ok)
    as Hbody.
  { apply (staged_set_interpreter ok a). apply Hg.
    - unfold J. simpl. by rewrite Hc.
    - by apply ok_dual. }
  destruct (Hbody s1 o Hc Ho) as (r & new & s' & Hrun & Hc' & Ho' & Hn & Hs & Hr).
  rewrite Hrun.
  destruct (lift_ok ok ok_float ok_dual J _ r Hr) as (ir & pr & tr & Er & Hpr & Htr).
  rewrite Er. simpl.
  exists (pr, tr), new, s'. by repeat split.
Qed.

Lemma closed_with_mono bound bound' prog :
  bound ⊆ bound' -> closed_with ok bound prog -> closed_with ok bound' prog.
Proof.
  intros Hsub Hcl. destruct Hcl as [b v Hv|b o0 x y k Hx Hy Hk|b body p t k Hp Ht Hb Hk].
  - constructor. by eapply ok_mono.
  - constructor; [by eapply ok_mono..|].
    intros b' v Hb' Hv. apply Hk; [|done]. by etrans.
  - constructor; [by eapply ok_mono..| |].
    + intros b' x Hb' Hx. apply Hb; [|done]. by etrans.
    + intros b' p' t' Hb' Hp' Ht'. apply Hk; [|done..]. by etrans.
Qed.

(** Closed code, run under an interpreter that stages into [a]. *)
Lemma staged_run prog : forall i bound,
  stages_into a i ->
  closed_with ok bound prog ->
  staged_at ok a i bound (run prog) ok.
Proof.
  induction prog as [v|o0 x y k IHk|body IHbody p t k IHk]; intros i bound Hi Hcl;
    simpl.
  - inversion Hcl; subst. by apply (staged_ret ok a).
  - inversion Hcl as [|? ? ? ? ? Hx Hy Hk|]; subst.
    eapply (staged_bind ok a); [by apply (staged_dispatch ok ok_mono ok_float ok_var ok_dual a)|].
    intros new v Hv. apply IHk; [done|]. apply Hk; [|done].
    intros z Hz. apply elem_of_app. by left.
  - inversion Hcl as [| |? ? ? ? ? Hp Ht Hb Hk]; subst.
    eapply (staged_bind ok a).
    + apply staged_jvp; [done..|].
      intros j x Hj Hx. apply IHbody; [done|]. by apply Hb.
    + intros new [p' t'] [Hp' Ht']. simpl in *. apply IHk; [done|].
      apply Hk; [|done..]. intros z Hz. apply elem_of_app. by left.
Qed.

End StagedRun.

(** The two notions of scope the logic is used with. *)
Lemma value_ok_mono b b' v : b ⊆ b' -> value_ok b v -> value_ok b' v.
Proof. intros Hsub Hv x Hx. by apply Hsub, Hv. Qed.

Lemma value_ok_float b x : value_ok b (VFloat x).
Proof. intros y Hy. by apply elem_of_nil in Hy. Qed.

Lemma value_ok_var b x : x ∈ b -> value_ok b (VStr x).
Proof. intros Hx y Hy. simpl in Hy. by apply list_elem_of_singleton in Hy as ->. Qed.

Lemma value_ok_dual b i p t :
  value_ok b (TaggedDualNumber i p t) <-> value_ok b p /\ value_ok b t.
Proof.
  unfold value_ok. simpl. split.
  - intros H. split; intros x Hx; apply H, elem_of_app; auto.
  - intros [Hp Ht] x [Hx|Hx]%elem_of_app; auto.
Qed.

Lemma value_ok_atom_ok b v : value_ok b v -> atom_ok b v.
Proof. intros Hv x ->. apply Hv. simpl. apply list_elem_of_here. Qed.

Lemma closed_with_True prog : forall bound, closed_with (fun _ _ => True) bound prog.
Proof.
  induction prog as [v|o0 x y k IHk|body IHbody p t k IHk]; intros bound;
    constructor; auto.
Qed.

Lemma build_jaxpr_staged (ok : list Var -> value -> Prop) (p : list value -> Prog)
      (n : nat) (s : State) :
  staged_at ok (next_addr s) (StagingInterpreter (next_addr s)) (parameter_names n)
            (run (p (map VStr (parameter_names n)))) ok ->
  exists j s',
    build_jaxpr (fun xs => run (p xs)) n s = (Ok j, s')
    /\ parameters j = parameter_names n
    /\ names j = map var_name (seq 1 (n + length (equations j)))
    /\ scoped_with ok (parameters j) (equations j)
    /\ ok (names j) (return_val j).
Proof.
  intros Hst. rewrite build_jaxpr_unfold.
  destruct (Hst (staging_entry n s) {| staged_equations := []; name_counter := n |}
              eq_refl (lookup_insert_eq _ _ _))
    as (r & new & s' & Hrun & _ & Ho' & Hnames & Hscoped & Hr).
  rewrite Hrun, Ho'. simpl in *.
  eexists _, _. split; [reflexivity|]. split; [reflexivity|].
  unfold names. simpl. split; [|done].
  rewrite Hnames, parameter_names_var_name. apply (var_names_app 0).
Qed.

(** C8. Single static assignment, for code over the primitives.  For every
    function that is code over the primitives (invocations of [add] and
    [mul], nested [jvp], a return), [build_jaxpr] returns a jaxpr whose
    variable names, the parameters and the equation results, are pairwise
    distinct: they are [v_1], [v_2], ... in the order the counter handed them
    out.  If moreover the function passes on only literals, its parameters
    and what its earlier invocations returned, then every variable among the
    arguments of an equation is a parameter or the result of an earlier
    equation, and so is the return value. *)
Theorem build_jaxpr_ssa (p : list value -> Prog) (n : nat) (s : State) :
  exists j s',
    build_jaxpr (fun xs => run (p xs)) n s = (Ok j, s')
    /\ NoDup (names j)
    /\ ((forall xs, closed xs (p (map VStr xs))) -> well_scoped j).
Proof.
  destruct (build_jaxpr_staged (fun _ _ => True) p n s)
    as (j & s' & Hb & _ & Hn & _ & _).
  { apply staged_run; try done. apply closed_with_True. }
  exists j, s'. split; [done|]. split.
  { rewrite Hn. apply NoDup_var_names. }
  intros Hcl.
  destruct (build_jaxpr_staged value_ok p n s) as (j' & s'' & Hb' & _ & _ & Hs & Hr).
  { apply staged_run;
      [apply value_ok_mono|apply value_ok_float|apply value_ok_var
      |apply value_ok_dual|reflexivity|apply Hcl]. }
  rewrite Hb in Hb'. injection Hb' as <- <-.
  split.
  - eapply scoped_with_impl; [|exact Hs]. apply value_ok_atom_ok.
  - by apply value_ok_atom_ok.
Qed.

Lemma closed_foo_body bound x : value_ok bound x -> closed bound (foo_body x).
Proof.
  intros Hx. apply closed_Prim; [done|apply value_ok_float|].
  intros b1 v Hb1 Hv. apply closed_Prim; [by apply (value_ok_mono bound)|done|].
  intros b2 r Hb2 Hr. by apply closed_Return.
Qed.

Lemma closed_foo_prog xs : closed xs (foo_prog (map VStr xs)).
Proof.
  destruct xs as [|x [|y xs]]; simpl.
  - constructor. apply value_ok_float.
  - apply closed_foo_body, value_ok_var, list_elem_of_here.
  - constructor. apply value_ok_float.
Qed.

Lemma closed_derivative_foo_prog xs : closed xs (derivative_foo_prog (map VStr xs)).
Proof.
  destruct xs as [|x [|y xs]]; simpl.
  - constructor. apply value_ok_float.
  - constructor.
    + apply value_ok_var, list_elem_of_here.
    + apply value_ok_float.
    + intros b z _ Hz. by apply closed_foo_body.
    + intros b p t _ _ Ht. by constructor.
  - constructor. apply value_ok_float.
Qed.

Lemma build_jaxpr_ssa_witness :
  exists j s',
    build_jaxpr (fun xs => run (derivative_foo_prog xs)) 1 initial_state = (Ok j, s')
    /\ NoDup (names j) /\ well_scoped j.
Proof.
  destruct (build_jaxpr_ssa derivative_foo_prog 1 initial_state)
    as (j & s' & Hb & Hn & Hw).
  exists j, s'. split; [exact Hb|]. split; [exact Hn|].
  apply Hw. exact closed_derivative_foo_prog.
Defined.

(** [foo_prog] is [foo], and [derivative_foo_prog] is
    [lambda x: derivative(foo, x)]. *)
Lemma run_foo_body x s : run (foo_body x) s = foo x s.
Proof.
  simpl. unfold foo, add, mul. apply bind_ext_at; [done|].
  intros v s' _. apply bind_ret_r.
Qed.

Lemma run_foo_prog x s : run (foo_prog [x]) s = star1 foo [x] s.
Proof. apply run_foo_body. Qed.

(** What staging [lambda x: derivative(foo, x)] gives: the tangent
    equations next to the primal ones, all of them in scope. *)
Example build_jaxpr_derivative_foo :
  (build_jaxpr (fun xs => run (derivative_foo_prog xs)) 1 initial_state).1
  = Ok {| parameters := ["v_1"];
          equations :=
            [ {| var := "v_2"; op := Op.add; args := [VStr "v_1"; VFloat 3.0] |};
              {| var := "v_3"; op := Op.add; args := [VFloat 1.0; VFloat 0.0] |};
              {| var := "v_4"; op := Op.mul; args := [VStr "v_1"; VStr "v_2"] |};
              {| var := "v_5"; op := Op.mul; args := [VStr "v_1"; VStr "v_3"] |};
              {| var := "v_6"; op := Op.mul; args := [VFloat 1.0; VStr "v_2"] |};
              {| var := "v_7"; op := Op.add; args := [VStr "v_5"; VStr "v_6"] |} ];
          return_val := VStr "v_7" |}.
Proof. reflexivity. Qed.

(** Well-scopedness fails for a function that passes a variable it was not
    given.  When [outer] is staged, its parameter [x] is the variable [v_1]
    of the outer jaxpr, and the thunk [lambda: add(x, 3.0)] is staged by a
    second staging interpreter, whose first name is [v_1] again: the inner
    jaxpr has no parameter, and its one equation, [v_1 = add(v_1, 3.0)],
    applies [Op.add] to a variable that is neither a parameter nor the
    result of an earlier equation.  Evaluating it raises [KeyError]. *)
Lemma build_jaxpr_free_variable :
  let inner := {| parameters := [];
                  equations := [ {| var := "v_1"; op := Op.add;
                                    args := [VStr "v_1"; VFloat 3.0] |} ];
                  return_val := VStr "v_1" |} in
  (build_jaxpr (thunk (VStr "v_1")) 0 (staging_entry 1 initial_state)).1 = Ok inner
  /\ ~ (NoDup (names inner) /\ well_scoped inner)
  /\ (build_jaxpr (star1 outer) 1 initial_state).1 = Raise KeyError.
Proof.
  intros inner. split; [reflexivity|]. split; [|reflexivity].
  intros [_ [[Hargs _] _]]. simpl in Hargs.
  apply Forall_cons_1 in Hargs as [Hv _].
  specialize (Hv "v_1" eq_refl). by apply elem_of_nil in Hv.
Qed.

(** ** The printer *)

Section PrinterFacts.
Variable repr_float : float -> string.
Variable repr_str : string -> string.
Variable repr_Interpreter : Interpreter -> string.

Local Abbreviation str_of := (Jaxpr.__str__ repr_float repr_str repr_Interpreter).
Local Abbreviation line_of := (Jaxpr.equation_line repr_float repr_str repr_Interpreter).

Lemma all_str_strings (l : list string) (v : value) :
  Jaxpr.all_str (map VStr l ++ [v])
  = match v with
    | VStr x => Some (l ++ [x])
    | _ => None
    end.
Proof.
  induction l as [|y l IH]; simpl.
  - by destruct v.
  - rewrite IH. by destruct v.
Qed.

Lemma fold_lines (eqns : list Equation) (acc : list string) :
  fold_left (fun lines eqn => lines ++ [VStr (line_of eqn)]) eqns (map VStr acc)
  = map VStr (acc ++ map line_of eqns).
Proof.
  revert acc. induction eqns as [|e eqns IH]; intros acc; simpl.
  - by rewrite app_nil_r.
  - replace (map VStr acc ++ [VStr (line_of e)]) with (map VStr (acc ++ [line_of e]))
      by (by rewrite map_app).
    rewrite IH. by rewrite <- app_assoc.
Qed.

(** The lines [__str__] joins: the header, one line per equation, and the
    return value as it is. *)
Lemma str_unfold (j : Jaxpr) :
  str_of j
  = Jaxpr.str_join Jaxpr.newline
      (map VStr ((Jaxpr.join ", " (parameters j) +:+ " ->") :: map line_of (equations j))
       ++ [return_val j]).
Proof.
  unfold Jaxpr.__str__. cbn zeta.
  change ([] ++ [VStr (Jaxpr.join ", " (parameters j) +:+ " ->")])
    with (map VStr [Jaxpr.join ", " (parameters j) +:+ " ->"]).
  by rewrite fold_lines.
Qed.

Lemma str_float_return (j : Jaxpr) (x : float) (s : State) :
  return_val j = VFloat x -> str_of j s = (Raise TypeError, s).
Proof.
  intros H. rewrite str_unfold. unfold Jaxpr.str_join.
  by rewrite all_str_strings, H.
Qed.

Lemma str_var_return (j : Jaxpr) (v : Var) (s : State) :
  return_val j = VStr v ->
  str_of j s
  = (Ok (Jaxpr.join Jaxpr.newline
           ((Jaxpr.join ", " (parameters j) +:+ " ->")
              :: map line_of (equations j) ++ [v])), s).
Proof.
  intros H. rewrite str_unfold. unfold Jaxpr.str_join.
  by rewrite all_str_strings, H.
Qed.

Lemma str_returns_only_var (j : Jaxpr) (text : string) (s s' : State) :
  str_of j s = (Ok text, s') -> exists v, return_val j = VStr v.
Proof.
  rewrite str_unfold. unfold Jaxpr.str_join. rewrite all_str_strings.
  destruct (return_val j); [done|by eauto|done].
Qed.

(** A function that returns a constant without invoking a primitive is
    staged to a jaxpr with that float as its return value. *)
Lemma build_jaxpr_constant (c : float) (n : nat) (s : State) :
  build_jaxpr (fun _ => ret (VFloat c)) n s
  = (Ok {| parameters := parameter_names n; equations := []; return_val := VFloat c |},
     set_current (current_interpreter s) (staging_entry n s)).
Proof.
  rewrite build_jaxpr_unfold. unfold ret. simpl. by rewrite lookup_insert_eq.
Qed.

(** C10. Printer partiality: [Jaxpr.__str__] appends the return value to the
    lines unconverted, so joining them raises [TypeError] for every jaxpr
    whose return value is a float, among them the jaxpr of a function that
    returns a constant without invoking a primitive; it returns the text,
    the header, one line per equation and the return variable, exactly when
    the return value is a variable name. *)
Theorem Jaxpr_str_partial :
  (forall (j : Jaxpr) (s : State),
     (forall x, return_val j = VFloat x -> str_of j s = (Raise TypeError, s))
     /\ (forall v, return_val j = VStr v ->
           str_of j s
           = (Ok (Jaxpr.join Jaxpr.newline
                    ((Jaxpr.join ", " (parameters j) +:+ " ->")
                       :: map line_of (equations j) ++ [v])), s))
     /\ (forall text s', str_of j s = (Ok text, s') ->
           exists v, return_val j = VStr v))
  /\ (forall (c : float) (n : nat) (s : State),
        ((j <- build_jaxpr (fun _ => ret (VFloat c)) n ;; str_of j) s).1
        = Raise TypeError).
Proof.
  split.
  - intros j s. split; [intros x; apply str_float_return|].
    split; [intros v; apply str_var_return|].
    intros text s'. apply str_returns_only_var.
  - intros c n s. rewrite (bind_Ok _ _ _ _ _ (build_jaxpr_constant c n s)).
    by erewrite str_float_return.
Qed.

Lemma string_app_assoc (s1 s2 s3 : string) :
  (s1 +:+ s2) +:+ s3 = s1 +:+ (s2 +:+ s3).
Proof.
  induction s1 as [|c s1 IH]; [done|].
  change (String c ((s1 +:+ s2) +:+ s3) = String c (s1 +:+ (s2 +:+ s3))).
  by rewrite IH.
Qed.

(** What the notebook prints for [build_jaxpr(foo, 1)]. *)
Lemma str_jaxpr_foo (s : State) :
  str_of jaxpr_foo s
  = (Ok ("v_1 ->" +:+ Jaxpr.newline
         +:+ "  v_2 = Op.add(v_1, " +:+ repr_float 3.0 +:+ ")" +:+ Jaxpr.newline
         +:+ "  v_3 = Op.mul(v_1, v_2)" +:+ Jaxpr.newline
         +:+ "v_3"), s).
Proof.
  rewrite (str_var_return jaxpr_foo "v_3") by done.
  do 2 f_equal. cbv [jaxpr_foo parameters equations map app Jaxpr.join
                    Jaxpr.equation_line Jaxpr.str Jaxpr.str_Op var op args].
  rewrite !string_app_assoc. reflexivity.
Qed.

End PrinterFacts.

Lemma Jaxpr_str_partial_witness :
  Jaxpr.__str__ (fun _ => "3.0") (fun x => x) (fun _ => "")
    {| parameters := ["v_1"]; equations := []; return_val := VFloat 3.0 |} initial_state
  = (Raise TypeError, initial_state).
Proof.
  apply (proj1 (proj1 (Jaxpr_str_partial (fun _ => "3.0") (fun x => x) (fun _ => ""))
                  {| parameters := ["v_1"]; equations := []; return_val := VFloat 3.0 |}
                  initial_state) 3.0%float).
  reflexivity.
Defined.

(** ** The flattener *)

Section FlattenerFacts.
Context {L : Type}.

(** Induction over nested structures, with the property available for
    every child. *)
Lemma pytree_nested_ind (P : pytree L -> Prop) :
  (forall x, P (Leaf x)) ->
  P PNone ->
  (forall xs, Forall P xs -> P (PTuple xs)) ->
  (forall xs, Forall P xs -> P (PList xs)) ->
  (forall items, Forall (fun kv => P kv.2) items -> P (PDict items)) ->
  (forall name auxdata xs, Forall P xs -> P (PCustom name auxdata xs)) ->
  forall s, P s.
Proof.
  intros HLeaf HNone HTuple HList HDict HCustom.
  fix IH 1. intros [x| |xs|xs|items|name auxdata xs].
  - apply HLeaf.
  - apply HNone.
  - apply HTuple. induction xs as [|s xs IHxs]; constructor; [apply IH|exact IHxs].
  - apply HList. induction xs as [|s xs IHxs]; constructor; [apply IH|exact IHxs].
  - apply HDict.
    induction items as [|[k s] items IHitems]; constructor; [apply IH|exact IHitems].
  - apply HCustom. induction xs as [|s xs IHxs]; constructor; [apply IH|exact IHxs].
Qed.

Lemma rebuild_all_children (xs : list (pytree L)) (rest : list L) :
  Forall (fun s => forall rest,
            Flattener.rebuild (Flattener.treedef s) (Flattener.leaves s ++ rest)
            = Some (s, rest)) xs ->
  Flattener.rebuild_all (map Flattener.treedef xs) (flat_map Flattener.leaves xs ++ rest)
  = Some (xs, rest).
Proof.
  induction 1 as [|s xs Hs _ IH]; simpl; [done|].
  by rewrite <- app_assoc, Hs, IH.
Qed.

Lemma rebuild_all_items (items : list (string * pytree L)) (rest : list L) :
  Forall (fun kv => forall rest,
            Flattener.rebuild (Flattener.treedef kv.2) (Flattener.leaves kv.2 ++ rest)
            = Some (kv.2, rest)) items ->
  Flattener.rebuild_all (map (fun kv => Flattener.treedef kv.2) items)
              (flat_map (fun kv => Flattener.leaves kv.2) items ++ rest)
  = Some (map snd items, rest).
Proof.
  induction 1 as [|[k s] items Hs _ IH]; simpl in *; [done|].
  by rewrite <- app_assoc, Hs, IH.
Qed.

Lemma zip_fst_snd_items (items : list (string * pytree L)) :
  zip (map fst items) (map snd items) = items.
Proof. induction items as [|[k s] items IH]; simpl; [done|]. by rewrite IH. Qed.

(** Rebuilding from the descriptor of [s] consumes exactly the leaves of
    [s] and yields [s]. *)
Lemma rebuild_flatten (s : pytree L) : forall rest,
  Flattener.rebuild (Flattener.treedef s) (Flattener.leaves s ++ rest) = Some (s, rest).
Proof.
  induction s as [x| |xs IH|xs IH|items IH|name auxdata xs IH]
    using pytree_nested_ind; intros rest.
  - reflexivity.
  - reflexivity.
  - change (match Flattener.rebuild_all (map Flattener.treedef xs)
                    (flat_map Flattener.leaves xs ++ rest) with
            | Some (ss, ls') => Some (PTuple ss, ls')
            | None => None
            end = Some (PTuple xs, rest)).
    by rewrite rebuild_all_children.
  - change (match Flattener.rebuild_all (map Flattener.treedef xs)
                    (flat_map Flattener.leaves xs ++ rest) with
            | Some (ss, ls') => Some (PList ss, ls')
            | None => None
            end = Some (PList xs, rest)).
    by rewrite rebuild_all_children.
  - change (match Flattener.rebuild_all (map (fun kv => Flattener.treedef kv.2) items)
                    (flat_map (fun kv => Flattener.leaves kv.2) items ++ rest) with
            | Some (ss, ls') =>
                if Nat.eqb (length (map fst items)) (length ss)
                then Some (PDict (zip (map fst items) ss), ls')
                else None
            | None => None
            end = Some (PDict items, rest)).
    rewrite rebuild_all_items by done.
    rewrite !length_map, Nat.eqb_refl. by rewrite zip_fst_snd_items.
  - change (match Flattener.rebuild_all (map Flattener.treedef xs)
                    (flat_map Flattener.leaves xs ++ rest) with
            | Some (ss, ls') => Some (PCustom name auxdata ss, ls')
            | None => None
            end = Some (PCustom name auxdata xs, rest)).
    by rewrite rebuild_all_children.
Qed.

(** The leaf count of the descriptor is the number of leaves. *)
Lemma num_leaves_flatten (s : pytree L) :
  Flattener.num_leaves (Flattener.treedef s) = length (Flattener.leaves s).
Proof.
  assert (forall xs : list (pytree L),
            Forall (fun s => Flattener.num_leaves (Flattener.treedef s)
                             = length (Flattener.leaves s)) xs ->
            list_sum (map Flattener.num_leaves (map Flattener.treedef xs))
            = length (flat_map Flattener.leaves xs)) as Hsum.
  { induction 1 as [|s' xs Hs _ IH]; simpl; [done|].
    by rewrite length_app, Hs, IH. }
  induction s as [x| |xs IH|xs IH|items IH|name auxdata xs IH]
    using pytree_nested_ind; simpl; auto.
  induction IH as [|[k s'] items Hs _ IH']; simpl in *; [done|].
  by rewrite length_app, Hs, IH'.
Qed.

Lemma unflatten_flatten (s : pytree L) :
  Flattener.unflatten (Flattener.flatten s).2 (Flattener.flatten s).1 = inr s.
Proof.
  unfold Flattener.unflatten, Flattener.flatten. simpl.
  rewrite num_leaves_flatten, Nat.eqb_refl.
  pose proof (rebuild_flatten s []) as H. rewrite app_nil_r in H. by rewrite H.
Qed.

(** A wrong number of leaves is an [ArityMismatch]. *)
Lemma unflatten_arity (d : PyTreeDef) (ls : list L) :
  length ls <> Flattener.num_leaves d ->
  Flattener.unflatten d ls = inl ArityMismatch.
Proof.
  intros H. unfold Flattener.unflatten.
  by apply Nat.eqb_neq in H as ->.
Qed.

End FlattenerFacts.

(** The descriptor does not depend on the leaf values. *)
Lemma treedef_tree_map {A B : Type} (g : A -> B) (s : pytree A) :
  Flattener.treedef (Flattener.tree_map g s) = Flattener.treedef s.
Proof.
  induction s as [x| |xs IH|xs IH|items IH|name auxdata xs IH]
    using pytree_nested_ind; simpl; try done.
  - f_equal. induction IH as [|s xs Hs _ IH']; simpl; [done|]. by rewrite Hs, IH'.
  - f_equal. induction IH as [|s xs Hs _ IH']; simpl; [done|]. by rewrite Hs, IH'.
  - f_equal.
    + induction IH as [|[k s] items Hs _ IH']; simpl in *; [done|]. by rewrite Hs, IH'.
    + clear IH. induction items as [|[k s] items IH']; simpl; [done|]. by rewrite IH'.
  - f_equal. induction IH as [|s xs Hs _ IH']; simpl; [done|]. by rewrite Hs, IH'.
Qed.

(** C9. Flattener round trip: for every nested structure [s] of sequences,
    mappings with named keys, [None] and registered custom containers,
    [unflatten] applied to the descriptor and the leaves that [flatten]
    produces rebuilds [s], and the leaf count of the descriptor is the number
    of leaves; two structures of the same container shape, whatever their
    leaf values, have equal descriptors. *)
Theorem flatten_round_trip :
  (forall (L : Type) (s : pytree L),
     Flattener.unflatten (Flattener.flatten s).2 (Flattener.flatten s).1 = inr s
     /\ Flattener.num_leaves (Flattener.flatten s).2
        = length (Flattener.flatten s).1)
  /\ (forall (A B : Type) (s1 : pytree A) (s2 : pytree B),
        Flattener.same_shape s1 s2 ->
        (Flattener.flatten s1).2 = (Flattener.flatten s2).2).
Proof.
  split.
  - intros L s. split; [apply unflatten_flatten|apply num_leaves_flatten].
  - intros A B s1 s2 H. simpl.
    rewrite <- (treedef_tree_map (fun _ => tt) s1), <- (treedef_tree_map (fun _ => tt) s2).
    by rewrite H.
Qed.

Lemma flatten_round_trip_witness :
  let s1 := PDict [("w", PTuple [Leaf 1; Leaf 2]); ("b", PList [PNone; Leaf 3])] in
  let s2 := PDict [("w", PTuple [Leaf 10; Leaf 20]); ("b", PList [PNone; Leaf 30])] in
  (Flattener.flatten s1).2 = (Flattener.flatten s2).2.
Proof.
  intros s1 s2. apply (proj2 flatten_round_trip nat nat s1 s2). reflexivity.
Defined.

Example flatten_example :
  Flattener.flatten
    (PDict [("w", PTuple [Leaf 1; Leaf 2]); ("b", PCustom "Point" [] [PNone; Leaf 3])])
  = ([1; 2; 3],
     {| kind := PyTreeDefKind.dict;
        children :=
          [ Flattener.node PyTreeDefKind.tuple
              [Flattener.node PyTreeDefKind.leaf []; Flattener.node PyTreeDefKind.leaf []];
            {| kind := PyTreeDefKind.custom;
               children := [Flattener.node PyTreeDefKind.none [];
                            Flattener.node PyTreeDefKind.leaf []];
               children_names := []; custom_name := "Point"; custom_auxdata := [] |} ];
        children_names := ["w"; "b"];
        custom_name := ""; custom_auxdata := [] |}).
Proof. reflexivity. Qed.

(** * Functions written with the primitives *)

(** ** The monad *)

Lemma bind_assoc {A B C} (m : M A) (k1 : A -> M B) (k2 : B -> M C) s :
  bind (bind m k1) k2 s = bind m (fun a => bind (k1 a) k2) s.
Proof. unfold bind. by destruct (m s) as [[a|e] s']. Qed.

Lemma set_interpreter_Ok {A} i (body : M A) s v s' :
  body (set_current i s) = (Ok v, s') ->
  set_interpreter i body s = (Ok v, set_current (current_interpreter s) s').
Proof. intros H. unfold set_interpreter, try_finally. by rewrite H. Qed.

Lemma jvp_ext (g1 g2 : value -> M value) p t s :
  (forall x s', g1 x s' = g2 x s') -> jvp g1 p t s = jvp g2 p t s.
Proof.
  intros H. unfold jvp.
  apply bind_ext_at; [done|intros prev s1 _].
  apply bind_ext_at; [done|intros i s2 _].
  apply bind_ext_at; [|done].
  unfold set_interpreter, try_finally. by rewrite H.
Qed.

(** ** Bodies and what they compute *)

Lemma foo_expr_foo x s : py_fun 1 foo_expr [x] s = foo x s.
Proof. reflexivity. Qed.

Lemma foo_expr_dual d : dual_expr foo_expr [d] = foo_dual d.
Proof. reflexivity. Qed.

Lemma well_formed_EVar n i : well_formed n (EVar i) = true -> i < n.
Proof. simpl. intros H. by apply bool_decide_eq_true in H. Qed.

Lemma primal_dual_expr e : forall ds,
  primal (dual_expr e ds) = float_expr e (map primal ds).
Proof.
  induction e as [i|c|o e1 IH1 e2 IH2|e1 IH1 e2 IH2]; intros ds; simpl.
  - rewrite list_lookup_fmap. by destruct (ds !! i).
  - done.
  - destruct o; simpl; by rewrite IH1, IH2.
  - rewrite IH2, map_app. simpl. by rewrite IH1.
Qed.

(** Under the evaluating interpreter a body computes, on floats, the float
    its arithmetic denotes, and leaves the state as it was. *)
Lemma py_expr_Eval e : forall xs s,
  well_formed (length xs) e = true ->
  current_interpreter s = EvalInterpreter ->
  py_expr e (map VFloat xs) s = (Ok (VFloat (float_expr e xs)), s).
Proof.
  induction e as [i|c|o e1 IH1 e2 IH2|e1 IH1 e2 IH2]; intros xs s Hwf Hc; simpl in *.
  - apply bool_decide_eq_true in Hwf.
    destruct (lookup_lt_is_Some_2 xs i Hwf) as [x Hx].
    by rewrite list_lookup_fmap, Hx.
  - done.
  - apply andb_true_iff in Hwf as [H1 H2].
    erewrite bind_Ok by (by apply IH1).
    erewrite bind_Ok by (by apply IH2).
    rewrite (dispatch_at EvalInterpreter) by done.
    by destruct o.
  - apply andb_true_iff in Hwf as [H1 H2].
    erewrite bind_Ok by (by apply IH1).
    change [VFloat (float_expr e1 xs)] with (map VFloat [float_expr e1 xs]).
    rewrite <- map_app. apply IH2; [|done].
    by rewrite length_app, Nat.add_1_r.
Qed.

(** Under a JVP interpreter over the evaluating interpreter a body
    computes, on values that stand for dual numbers, a value that stands for
    the dual number of the hand-written rules, and leaves the state as it
    was. *)
Lemma py_expr_JVP a e : forall vals ds s,
  well_formed (length vals) e = true ->
  current_interpreter s = JVPInterpreter a EvalInterpreter ->
  Forall2 (dual_of (JVPInterpreter a EvalInterpreter)) vals ds ->
  exists v, py_expr e vals s = (Ok v, s)
            /\ dual_of (JVPInterpreter a EvalInterpreter) v (dual_expr e ds).
Proof.
  induction e as [i|c|o e1 IH1 e2 IH2|e1 IH1 e2 IH2]; intros vals ds s Hwf Hc Hrel;
    simpl in *.
  - apply bool_decide_eq_true in Hwf.
    destruct (lookup_lt_is_Some_2 vals i Hwf) as [v Hv].
    destruct (Forall2_lookup_l _ _ _ _ _ Hrel Hv) as (d & Hd & Hvd).
    exists v. by rewrite Hv, Hd.
  - by exists (VFloat c).
  - apply andb_true_iff in Hwf as [H1 H2].
    destruct (IH1 vals ds s H1 Hc Hrel) as (v1 & E1 & R1).
    destruct (IH2 vals ds s H2 Hc Hrel) as (v2 & E2 & R2).
    erewrite bind_Ok by apply E1. erewrite bind_Ok by apply E2.
    rewrite (dispatch_at _ _ _ _ Hc).
    destruct (JVP_rules_over_Eval a v1 v2 _ _ _ _ _ _ s R1 R2) as [Ea Em].
    destruct o; [rewrite Ea|rewrite Em]; eexists; (split; [done|]);
      unfold dual_of; by rewrite lift_owned by apply is_refl.
  - apply andb_true_iff in Hwf as [H1 H2].
    destruct (IH1 vals ds s H1 Hc Hrel) as (v1 & E1 & R1).
    erewrite bind_Ok by apply E1.
    apply IH2; [|done|].
    + by rewrite length_app, Nat.add_1_r.
    + apply Forall2_app; [done|]. by constructor.
Qed.

(** [jvp] of such a function, under the evaluating interpreter and at
    floats, returns the primal and the tangent of the hand-written dual
    number computation. *)
Lemma jvp_py_fun e x t s :
  well_formed 1 e = true ->
  current_interpreter s = EvalInterpreter ->
  (jvp (fun v => py_fun 1 e [v]) (VFloat x) (VFloat t) s).1
  = let d := dual_expr e [{| primal := x; tangent := t |}] in
    Ok (VFloat (primal d), VFloat (tangent d)).
Proof.
  intros Hwf Hc. unfold jvp.
  erewrite bind_Ok by reflexivity. erewrite bind_Ok by reflexivity.
  rewrite Hc. cbn [JVPInterpreter.dual_number].
  set (J := JVPInterpreter (next_addr s) EvalInterpreter).
  set (d0 := {| primal := x; tangent := t |}).
  match goal with |- (bind _ _ ?s1).1 = _ =>
    destruct (py_expr_JVP (next_addr s) e
                [TaggedDualNumber J (VFloat x) (VFloat t)] [d0]
                (set_current J s1) Hwf eq_refl) as (v & E & R)
  end.
  { constructor; [|constructor]. unfold dual_of. by rewrite lift_owned by apply is_refl. }
  erewrite bind_Ok by (apply set_interpreter_Ok; apply E).
  cbv zeta. unfold dual_of in R. subst J d0. rewrite R. reflexivity.
Qed.
(** ** Staging a body *)

Lemma stage_counter_le e : forall atoms c, c <= counter (stage e atoms c).
Proof.
  induction e as [i|x|o e1 IH1 e2 IH2|e1 IH1 e2 IH2]; intros atoms c; simpl; try lia.
  - specialize (IH1 atoms c).
    specialize (IH2 atoms (counter (stage e1 atoms c))). lia.
  - specialize (IH1 atoms c).
    specialize (IH2 (atoms ++ [result_atom (stage e1 atoms c)])
                    (counter (stage e1 atoms c))). lia.
Qed.

Lemma atom_below_mono c c' x : c <= c' -> atom_below c x -> atom_below c' x.
Proof. intros Hle H v Hv. destruct (H v Hv) as (j & Hj & ->). exists j. split; [lia|done]. Qed.

Lemma stage_atom_below e : forall atoms c,
  well_formed (length atoms) e = true ->
  Forall (atom_below c) atoms ->
  atom_below (counter (stage e atoms c)) (result_atom (stage e atoms c)).
Proof.
  induction e as [i|x|o e1 IH1 e2 IH2|e1 IH1 e2 IH2]; intros atoms c Hwf Hat; simpl in *.
  - apply bool_decide_eq_true in Hwf.
    destruct (lookup_lt_is_Some_2 atoms i Hwf) as [v Hv]. rewrite Hv. simpl.
    by eapply Forall_lookup_1.
  - by intros v Hv.
  - intros v [= <-]. by eexists.
  - apply andb_true_iff in Hwf as [H1 H2].
    apply IH2.
    + by rewrite length_app, Nat.add_1_r.
    + apply Forall_app. split.
      * eapply Forall_impl; [done|]. intros x. apply atom_below_mono, stage_counter_le.
      * constructor; [|constructor]. by apply IH1.
Qed.

(** The equations of a body are one per primitive invocation, in the order
    of the invocations, and bind the next names of the counter in order. *)
Lemma stage_ops e : forall atoms c,
  map op (new_equations (stage e atoms c)) = invocations e.
Proof.
  induction e as [i|x|o e1 IH1 e2 IH2|e1 IH1 e2 IH2]; intros atoms c; simpl; try done.
  - by rewrite !map_app, IH1, IH2.
  - by rewrite map_app, IH1, IH2.
Qed.

Lemma stage_counter e : forall atoms c,
  counter (stage e atoms c) = c + length (invocations e).
Proof.
  induction e as [i|x|o e1 IH1 e2 IH2|e1 IH1 e2 IH2]; intros atoms c; simpl;
    rewrite ?IH2, ?IH1, ?length_app; simpl; lia.
Qed.

Lemma stage_vars e : forall atoms c,
  map var (new_equations (stage e atoms c))
  = map var_name (seq (S c) (length (invocations e))).
Proof.
  induction e as [i|x|o e1 IH1 e2 IH2|e1 IH1 e2 IH2]; intros atoms c; simpl; try done.
  - rewrite !map_app, IH1, IH2, !length_app, !seq_app, !map_app. simpl.
    by rewrite !stage_counter.
  - rewrite !map_app, IH1, IH2, !length_app, !seq_app, !map_app.
    by rewrite !stage_counter.
Qed.

(** Run under a staging interpreter, a body returns the atom of [stage]
    and appends the equations of [stage] to the interpreter's list; nothing
    is evaluated and nothing raises. *)
Lemma py_expr_staged a e : forall atoms o s,
  well_formed (length atoms) e = true ->
  current_interpreter s = StagingInterpreter a ->
  objects s !! a = Some o ->
  exists s',
    py_expr e atoms s = (Ok (result_atom (stage e atoms (name_counter o))), s')
    /\ current_interpreter s' = StagingInterpreter a
    /\ objects s' !! a
       = Some {| staged_equations :=
                   staged_equations o ++ new_equations (stage e atoms (name_counter o));
                 name_counter := counter (stage e atoms (name_counter o)) |}.
Proof.
  induction e as [i|x|op0 e1 IH1 e2 IH2|e1 IH1 e2 IH2]; intros atoms o s Hwf Hc Ho;
    simpl in *.
  - apply bool_decide_eq_true in Hwf.
    destruct (lookup_lt_is_Some_2 atoms i Hwf) as [v Hv]. rewrite Hv. simpl.
    exists s. rewrite app_nil_r. by destruct o.
  - exists s. rewrite app_nil_r. by destruct o.
  - apply andb_true_iff in Hwf as [H1 H2].
    destruct (IH1 atoms o s H1 Hc Ho) as (s1 & E1 & Hc1 & Ho1).
    destruct (IH2 atoms _ s1 H2 Hc1 Ho1) as (s2 & E2 & Hc2 & Ho2).
    cbn [name_counter staged_equations] in *.
    erewrite bind_Ok by apply E1. erewrite bind_Ok by apply E2.
    rewrite (dispatch_Staging a) by done.
    rewrite (Staging_interpret_op_spec _ _ _ _ _ Ho2).
    cbn zeta. cbn [name_counter staged_equations].
    eexists. split; [reflexivity|]. split; [done|].
    rewrite set_object_lookup. by rewrite <- !app_assoc.
  - apply andb_true_iff in Hwf as [H1 H2].
    destruct (IH1 atoms o s H1 Hc Ho) as (s1 & E1 & Hc1 & Ho1).
    erewrite bind_Ok by apply E1.
    assert (well_formed
              (length (atoms ++ [result_atom (stage e1 atoms (name_counter o))])) e2
            = true) as H2' by (by rewrite length_app, Nat.add_1_r).
    destruct (IH2 _ _ s1 H2' Hc1 Ho1) as (s2 & E2 & Hc2 & Ho2).
    cbn [name_counter staged_equations] in *.
    exists s2. split; [done|]. split; [done|]. by rewrite app_assoc.
Qed.

Lemma parameter_names_length n : length (parameter_names n) = n.
Proof. unfold parameter_names. by rewrite length_map, length_seq. Qed.

(** [build_jaxpr] of a function written with the primitives returns the
    jaxpr of its body. *)
Lemma build_jaxpr_py_fun n e s :
  well_formed n e = true ->
  (build_jaxpr (py_fun n e) n s).1 = Ok (jaxpr_of n e).
Proof.
  intros Hwf. rewrite build_jaxpr_unfold. unfold py_fun.
  rewrite length_map, parameter_names_length, Nat.eqb_refl.
  destruct (py_expr_staged (next_addr s) e (map VStr (parameter_names n))
              {| staged_equations := []; name_counter := n |}
              (staging_entry n s)) as (s' & E & Hc & Ho).
  - by rewrite length_map, parameter_names_length.
  - done.
  - apply lookup_insert_eq.
  - rewrite E, Ho. reflexivity.
Qed.

(** ** Evaluating the equations of a body *)

Lemma eval_atom_value env x s :
  eval_atom env x s
  = match atom_value env x with
    | Some v => (Ok v, s)
    | None => (Raise KeyError, s)
    end.
Proof. destruct x as [c|v|i p t]; simpl; try done. by destruct (env !! v). Qed.

Lemma tuple_of_eval_atom env atoms vals s :
  Forall2 (fun x v => atom_value env x = Some v) atoms vals ->
  tuple_of (eval_atom env) atoms s = (Ok vals, s).
Proof.
  induction 1 as [|x v atoms vals Hx _ IH]; simpl; [done|].
  unfold bind. rewrite eval_atom_value, Hx. by rewrite IH.
Qed.

Lemma eval_equations_app {B} eqns1 : forall eqns2 env (k : gmap string value -> M B) s,
  bind (eval_equations (eqns1 ++ eqns2) env) k s
  = bind (eval_equations eqns1 env) (fun env1 => bind (eval_equations eqns2 env1) k) s.
Proof.
  induction eqns1 as [|eqn eqns1 IH]; intros eqns2 env k s; simpl; [done|].
  rewrite !bind_assoc. apply bind_ext_at; [done|intros vs s1 _].
  rewrite !bind_assoc. apply bind_ext_at; [done|intros v s2 _].
  apply IH.
Qed.

(** Two environments agree up to [c] when they bind the names handed out
    at or before [c] alike. *)
Lemma atom_value_agree c env env' x :
  (forall j, j <= c -> env' !! var_name j = env !! var_name j) ->
  atom_below c x -> atom_value env' x = atom_value env x.
Proof.
  intros Hag Hx. destruct x as [f|v|i p t]; try done.
  destruct (Hx v eq_refl) as (j & Hj & ->). simpl. by apply Hag.
Qed.

Lemma binds_agree c env env' atoms vals :
  (forall j, j <= c -> env' !! var_name j = env !! var_name j) ->
  Forall (atom_below c) atoms ->
  Forall2 (fun x v => atom_value env x = Some v) atoms vals ->
  Forall2 (fun x v => atom_value env' x = Some v) atoms vals.
Proof.
  intros Hag Hat Hrel. induction Hrel as [|x v atoms vals Hx _ IH]; [constructor|].
  apply Forall_cons in Hat as [Hb Hat].
  constructor; [|by apply IH]. by rewrite (atom_value_agree c env).
Qed.

(** Evaluating the equations of a body, in an environment that binds the
    atoms of the names in scope to their values, is running the body on
    these values: the same dispatches on the same arguments in the same
    order, under whatever interpreter is current. *)
Lemma eval_staged e : forall atoms vals c env B
    (k : gmap string value -> M B) (k' : value -> M B) s,
  well_formed (length atoms) e = true ->
  Forall (atom_below c) atoms ->
  Forall2 (fun x v => atom_value env x = Some v) atoms vals ->
  (forall env' v s',
     (forall j, j <= c -> env' !! var_name j = env !! var_name j) ->
     atom_value env' (result_atom (stage e atoms c)) = Some v ->
     k env' s' = k' v s') ->
  bind (eval_equations (new_equations (stage e atoms c)) env) k s
  = bind (py_expr e vals) k' s.
Proof.
  induction e as [i|x|o e1 IH1 e2 IH2|e1 IH1 e2 IH2];
    intros atoms vals c env B k k' s Hwf Hat Hrel Hk; simpl in *.
  - apply bool_decide_eq_true in Hwf.
    destruct (lookup_lt_is_Some_2 atoms i Hwf) as [x Hx].
    destruct (Forall2_lookup_l _ _ _ _ _ Hrel Hx) as (v & Hv & Hxv).
    rewrite Hv. rewrite Hx in Hk. simpl in Hk.
    rewrite !bind_ret_l. by apply Hk.
  - rewrite !bind_ret_l. by apply Hk.
  - apply andb_true_iff in Hwf as [H1 H2].
    set (r1 := stage e1 atoms c) in *. set (r2 := stage e2 atoms (counter r1)) in *.
    assert (c <= counter r1) as Hc1 by apply stage_counter_le.
    assert (counter r1 <= counter r2) as Hc2 by apply stage_counter_le.
    rewrite eval_equations_app, !bind_assoc.
    apply IH1; [done..|]. intros env1 v1 s1 Hag1 Hv1.
    rewrite eval_equations_app, bind_assoc.
    apply IH2; [done| | |].
    { eapply Forall_impl; [done|]. intros x. by apply atom_below_mono. }
    { by apply (binds_agree c env). }
    intros env2 v2 s2 Hag2 Hv2.
    assert (atom_value env2 (result_atom r1) = Some v1) as Hv1'.
    { rewrite (atom_value_agree (counter r1) env1); [done..|].
      by apply stage_atom_below. }
    cbn [eval_equations args op var].
    rewrite !bind_assoc.
    erewrite bind_Ok; cycle 1.
    { apply tuple_of_eval_atom. constructor; [done|]. constructor; [done|constructor]. }
    rewrite !bind_assoc.
    apply bind_ext_at; [done|intros v s3 _].
    rewrite bind_ret_l. apply Hk.
    + intros j Hj. rewrite lookup_insert_ne.
      * rewrite Hag2 by lia. by apply Hag1.
      * intros Heq. apply var_name_inj in Heq. lia.
    + simpl. apply lookup_insert_eq.
  - apply andb_true_iff in Hwf as [H1 H2].
    set (r1 := stage e1 atoms c) in *.
    assert (c <= counter r1) as Hc1 by apply stage_counter_le.
    rewrite eval_equations_app, !bind_assoc.
    apply IH1; [done..|]. intros env1 v1 s1 Hag1 Hv1.
    apply IH2.
    + by rewrite length_app, Nat.add_1_r.
    + apply Forall_app. split.
      * eapply Forall_impl; [done|]. intros x. by apply atom_below_mono.
      * constructor; [|constructor]. by apply stage_atom_below.
    + apply Forall2_app; [by apply (binds_agree c env)|]. by constructor.
    + intros env2 v2 s2 Hag2 Hv2. apply Hk; [|done].
      intros j Hj. rewrite Hag2 by lia. by apply Hag1.
Qed.
(** ** The environment of [eval_jaxpr] *)

Lemma dict_zip_acc_unbound keys : forall vals (m : gmap string value) k,
  k ∉ take (length vals) keys ->
  fold_left (fun env kv => <[kv.1 := kv.2]> env) (zip keys vals) m !! k = m !! k.
Proof.
  induction keys as [|k0 keys IH]; intros [|v vals] m k Hk; simpl in *; try done.
  apply not_elem_of_cons in Hk as [Hne Hk].
  rewrite IH by done. by apply lookup_insert_ne.
Qed.

Lemma dict_zip_acc_lookup keys : forall vals (m : gmap string value) i k v,
  NoDup keys -> keys !! i = Some k -> vals !! i = Some v ->
  fold_left (fun env kv => <[kv.1 := kv.2]> env) (zip keys vals) m !! k = Some v.
Proof.
  induction keys as [|k0 keys IH]; intros [|v0 vals] m i k v Hnd Hk Hv; try done.
  apply NoDup_cons in Hnd as [Hnotin Hnd].
  destruct i as [|i]; simpl in *.
  - injection Hk as ->. injection Hv as ->.
    rewrite dict_zip_acc_unbound.
    + apply lookup_insert_eq.
    + intros Hin. apply Hnotin. apply elem_of_take in Hin as (j & Hj & _).
      by eapply list_elem_of_lookup_2.
  - by eapply IH.
Qed.

Lemma dict_zip_unbound keys vals k :
  k ∉ take (length vals) keys -> dict_zip keys vals !! k = None.
Proof. intros H. unfold dict_zip. by rewrite dict_zip_acc_unbound. Qed.

Lemma dict_zip_lookup keys vals i k v :
  NoDup keys -> keys !! i = Some k -> vals !! i = Some v ->
  dict_zip keys vals !! k = Some v.
Proof. apply dict_zip_acc_lookup. Qed.

Lemma zip_surplus {A B} (keys : list A) : forall (vals extra : list B),
  length keys <= length vals -> zip keys (vals ++ extra) = zip keys vals.
Proof.
  induction keys as [|k keys IH]; intros [|v vals] extra Hlen; simpl in *;
    try done; try lia.
  f_equal. apply IH. lia.
Qed.

Lemma parameters_bound n xs :
  length xs = n ->
  Forall2 (fun x v => atom_value (dict_zip (parameter_names n) xs) x = Some v)
          (map VStr (parameter_names n)) xs.
Proof.
  intros Hlen. apply Forall2_same_length_lookup_2.
  { by rewrite length_map, parameter_names_length. }
  intros i x v Hx Hv.
  rewrite list_lookup_fmap in Hx.
  destruct (parameter_names n !! i) as [p|] eqn:Hp; [|done].
  injection Hx as <-. simpl.
  eapply dict_zip_lookup; [apply NoDup_var_names|done..].
Qed.

Lemma parameters_below n : Forall (atom_below n) (map VStr (parameter_names n)).
Proof.
  apply Forall_forall. intros x Hx.
  apply list_elem_of_fmap in Hx as (p & -> & Hp).
  apply list_elem_of_fmap in Hp as (j & -> & Hj).
  apply elem_of_seq in Hj.
  intros v [= <-]. exists j. split; [lia|done].
Qed.

(** Evaluating the jaxpr of a function written with the primitives is
    calling the function. *)
Lemma eval_jaxpr_of n e xs s :
  well_formed n e = true ->
  length xs = n ->
  eval_jaxpr (jaxpr_of n e) xs s = py_fun n e xs s.
Proof.
  intros Hwf Hlen. unfold eval_jaxpr, jaxpr_of, py_fun.
  cbn [parameters equations return_val].
  rewrite Hlen, Nat.eqb_refl, <- (bind_ret_r (py_expr e xs)).
  apply eval_staged.
  - by rewrite length_map, parameter_names_length.
  - apply parameters_below.
  - by apply parameters_bound.
  - intros env' v s' _ Hv. by rewrite eval_atom_value, Hv.
Qed.

(** ** Computations that leave the state alone *)

Lemma stateless_ret {A} (a : A) : stateless (ret a).
Proof. by intros s. Qed.

Lemma stateless_raise {A} e : stateless (@raise A e).
Proof. by intros s. Qed.

Lemma stateless_bind {A B} (m : M A) (k : A -> M B) :
  stateless m -> (forall a, stateless (k a)) -> stateless (bind m k).
Proof.
  intros Hm Hk s. unfold bind. specialize (Hm s).
  destruct (m s) as [[a|e] s']; simpl in *; subst; [apply Hk|done].
Qed.

Lemma stateless_set_interpreter {A} i (body : M A) :
  stateless body -> stateless (set_interpreter i body).
Proof.
  intros H s. unfold set_interpreter, try_finally. specialize (H (set_current i s)).
  destruct (body _) as [r s']. simpl in *. subst.
  by rewrite set_current_twice, set_current_id.
Qed.

Lemma stateless_unpack2 {A} (l : list A) : stateless (unpack2 l).
Proof. by destruct l as [|x [|y [|z l]]]. Qed.

Lemma stateless_get_primal x : stateless (get_primal x).
Proof. by destruct x. Qed.

Lemma stateless_get_tangent x : stateless (get_tangent x).
Proof. by destruct x. Qed.

Lemma stateless_eval_atom env x : stateless (eval_atom env x).
Proof. intros s. rewrite eval_atom_value. by destruct (atom_value env x). Qed.

Lemma stateless_tuple_of {A B} (g : A -> M B) xs :
  (forall x, stateless (g x)) -> stateless (tuple_of g xs).
Proof.
  intros Hg. induction xs as [|x xs IH]; simpl; [apply stateless_ret|].
  apply stateless_bind; [done|intros y].
  apply stateless_bind; [done|intros ys]. apply stateless_ret.
Qed.

Lemma stateless_Eval_interpret_op op args :
  stateless (EvalInterpreter.interpret_op op args).
Proof.
  unfold EvalInterpreter.interpret_op.
  destruct (forallb isinstance_float args); [|apply stateless_raise].
  destruct op; (apply stateless_bind; [apply stateless_unpack2|intros [x y]]);
    by destruct x, y.
Qed.

Lemma stateless_interpret_op i : forall op args,
  no_staging i -> stateless (interpret_op i op args).
Proof.
  induction i as [|a prev IH|a]; intros op args Hi; simpl in *.
  - apply stateless_Eval_interpret_op.
  - unfold JVPInterpreter.interpret_op.
    apply stateless_set_interpreter.
    destruct op;
      (apply stateless_bind; [apply stateless_unpack2|intros [x y]; cbv zeta]);
      repeat first
        [ apply stateless_ret
        | apply stateless_get_primal
        | apply stateless_get_tangent
        | by apply IH
        | apply stateless_bind; [|intros ?] ].
  - done.
Qed.

Lemma dispatch_no_staging op args s :
  no_staging (current_interpreter s) -> (dispatch op args s).2 = s.
Proof. intros H. unfold dispatch. by apply stateless_interpret_op. Qed.

Lemma eval_equations_no_staging eqns : forall env s,
  no_staging (current_interpreter s) -> (eval_equations eqns env s).2 = s.
Proof.
  induction eqns as [|eqn eqns IH]; intros env s Hs; simpl; [done|].
  unfold bind.
  pose proof (stateless_tuple_of (eval_atom env) (args eqn)
                (stateless_eval_atom env) s) as Ht.
  destruct (tuple_of _ _ s) as [[vs|e] s1]; simpl in Ht; subst s1; [|done].
  pose proof (dispatch_no_staging (op eqn) vs s Hs) as Hd.
  destruct (dispatch _ _ s) as [[v|e] s1]; simpl in Hd; subst s1; [|done].
  by apply IH.
Qed.

(** ** The entry points keep the current interpreter *)

Lemma keeps_derivative g x : keeps_current (derivative g x).
Proof.
  unfold derivative. apply keeps_bind; [apply keeps_jvp|intros [p t]; apply keeps_ret].
Qed.

Lemma keeps_nth_order_derivative n : forall g x,
  (forall y, keeps_current (g y)) -> keeps_current (nth_order_derivative n g x).
Proof.
  induction n as [|n IH]; intros g x Hg; simpl; [done|apply keeps_derivative].
Qed.

Lemma tuple_of_eval_atom_unbound env v atoms s :
  VStr v ∈ atoms -> env !! v = None ->
  tuple_of (eval_atom env) atoms s = (Raise KeyError, s).
Proof.
  intros Hin Hv. induction atoms as [|x atoms IH]; [by apply elem_of_nil in Hin|].
  simpl. unfold bind. rewrite eval_atom_value.
  destruct (atom_value env x) as [y|] eqn:Hx; [|done].
  apply elem_of_cons in Hin as [<-|Hin]; [simpl in Hx; congruence|].
  by rewrite IH.
Qed.
(** ** Differentiation and the hand-written dual numbers *)

(** X1. For every function of one parameter written with [add], [mul],
    float literals and local variables, [jvp] at floats [x] and [t],
    started under the evaluating interpreter, returns the primal and the
    tangent that the function rewritten by hand with [add_dual], [mul_dual]
    and [DualNumber(c, 0.0)] for each literal [c] computes on
    [DualNumber(x, t)]; [derivative] returns the tangent for [t = 1.0]. *)
Theorem jvp_dual_numbers (e : Expr) (x t : float) (s : State) :
  well_formed 1 e = true ->
  current_interpreter s = EvalInterpreter ->
  (jvp (fun v => py_fun 1 e [v]) (VFloat x) (VFloat t) s).1
  = Ok (VFloat (primal (dual_expr e [{| primal := x; tangent := t |}])),
        VFloat (tangent (dual_expr e [{| primal := x; tangent := t |}])))
  /\ (derivative (fun v => py_fun 1 e [v]) (VFloat x) s).1
     = Ok (VFloat (tangent (dual_expr e [{| primal := x; tangent := 1.0 |}]))).
Proof.
  intros Hwf Hc. split; [by apply jvp_py_fun|].
  pose proof (jvp_py_fun e x 1.0 s Hwf Hc) as H.
  unfold derivative, bind.
  destruct (jvp _ _ _ s) as [[[p t']|err] s']; simpl in *; [|done].
  by injection H as -> ->.
Qed.

Lemma jvp_dual_numbers_witness :
  (jvp (fun v => py_fun 1 foo_expr [v]) (VFloat 2.0) (VFloat 1.0) initial_state).1
  = Ok (VFloat 10.0, VFloat 7.0)
  /\ (derivative (fun v => py_fun 1 foo_expr [v]) (VFloat 2.0) initial_state).1
     = Ok (VFloat 7.0).
Proof.
  apply (jvp_dual_numbers foo_expr 2.0 1.0 initial_state); reflexivity.
Defined.

(** X2. [jvp(foo, x, t)] under the evaluating interpreter returns, at all
    floats [x] and [t], the primal and the tangent of
    [foo_dual(DualNumber(x, t))]: the JVP interpreter does the rewrite of
    [foo] into [foo_dual]. *)
Theorem jvp_foo_is_foo_dual (x t : float) (s : State) :
  current_interpreter s = EvalInterpreter ->
  (jvp foo (VFloat x) (VFloat t) s).1
  = Ok (VFloat (primal (foo_dual {| primal := x; tangent := t |})),
        VFloat (tangent (foo_dual {| primal := x; tangent := t |}))).
Proof.
  intros Hc.
  rewrite (jvp_ext foo (fun v => py_fun 1 foo_expr [v])) by (intros; by rewrite foo_expr_foo).
  rewrite jvp_py_fun by done. by rewrite foo_expr_dual.
Qed.

Lemma jvp_foo_is_foo_dual_witness :
  (jvp foo (VFloat 2.0) (VFloat 1.0) initial_state).1 = Ok (VFloat 10.0, VFloat 7.0).
Proof. apply (jvp_foo_is_foo_dual 2.0 1.0 initial_state). reflexivity. Defined.

(** X3. The primal that [jvp] returns is the value of the function: for
    every function written with the primitives, under the evaluating
    interpreter, [jvp(f, x, t)] returns a pair of floats whose first
    component is what [f(x)] returns, and [f(x)] leaves the state as it
    was. *)
Theorem jvp_primal_is_value (e : Expr) (x t : float) (s : State) :
  well_formed 1 e = true ->
  current_interpreter s = EvalInterpreter ->
  exists p t',
    (jvp (fun v => py_fun 1 e [v]) (VFloat x) (VFloat t) s).1 = Ok (VFloat p, VFloat t')
    /\ py_fun 1 e [VFloat x] s = (Ok (VFloat p), s).
Proof.
  intros Hwf Hc. eexists _, _. split; [by apply jvp_py_fun|].
  rewrite primal_dual_expr. simpl.
  by apply (py_expr_Eval e [x]).
Qed.

Lemma jvp_primal_is_value_witness :
  exists p t',
    (jvp (fun v => py_fun 1 foo_expr [v]) (VFloat 2.0) (VFloat 1.0) initial_state).1
    = Ok (VFloat p, VFloat t')
    /\ py_fun 1 foo_expr [VFloat 2.0] initial_state = (Ok (VFloat p), initial_state).
Proof.
  apply (jvp_primal_is_value foo_expr 2.0 1.0 initial_state); reflexivity.
Defined.

(** ** Staging and evaluating *)

(** X4. Staging round trip: for every function of [n] parameters written
    with the primitives, [build_jaxpr] returns a jaxpr, from every state,
    and evaluating that jaxpr on [n] arguments is calling the function on
    them: the same result or the same exception and the same final state,
    on all argument values and under whatever interpreter is current. *)
Theorem staging_round_trip (n : nat) (e : Expr) (s0 : State) :
  well_formed n e = true ->
  exists j,
    (build_jaxpr (py_fun n e) n s0).1 = Ok j
    /\ forall xs s, length xs = n -> eval_jaxpr j xs s = py_fun n e xs s.
Proof.
  intros Hwf. exists (jaxpr_of n e). split; [by apply build_jaxpr_py_fun|].
  intros xs s Hlen. by apply eval_jaxpr_of.
Qed.

Lemma staging_round_trip_witness :
  exists j,
    (build_jaxpr (py_fun 1 foo_expr) 1 initial_state).1 = Ok j
    /\ eval_jaxpr j [VFloat 2.0] initial_state = (Ok (VFloat 10.0), initial_state).
Proof.
  destruct (staging_round_trip 1 foo_expr initial_state eq_refl) as (j & Hb & He).
  exists j. split; [exact Hb|].
  rewrite (He [VFloat 2.0] initial_state eq_refl). reflexivity.
Defined.

(** X5. Program order: the jaxpr that [build_jaxpr] returns for a function
    of [n] parameters written with the primitives has the parameters [v_1]
    to [v_n] and one equation per primitive invocation, in the order of the
    invocations, binding the names that follow the parameters' in order;
    literal arguments are recorded, not computed with. *)
Theorem staging_program_order (n : nat) (e : Expr) (s0 : State) :
  well_formed n e = true ->
  exists j,
    (build_jaxpr (py_fun n e) n s0).1 = Ok j
    /\ parameters j = map var_name (seq 1 n)
    /\ map op (equations j) = invocations e
    /\ map var (equations j) = map var_name (seq (S n) (length (invocations e))).
Proof.
  intros Hwf. exists (jaxpr_of n e). split; [by apply build_jaxpr_py_fun|].
  unfold jaxpr_of. cbn [parameters equations].
  split; [done|]. split; [apply stage_ops|apply stage_vars].
Qed.

Lemma staging_program_order_witness :
  exists j,
    (build_jaxpr (py_fun 0 (EPrim Op.add (EConst 1.0) (EConst 2.0))) 0 initial_state).1
    = Ok j
    /\ parameters j = []
    /\ map op (equations j) = [Op.add]
    /\ map var (equations j) = ["v_1"].
Proof.
  apply (staging_program_order 0 (EPrim Op.add (EConst 1.0) (EConst 2.0)) initial_state).
  reflexivity.
Defined.

(** X6. Staging what was staged gives the same jaxpr: for the jaxpr [j] of
    a function of [n] parameters written with the primitives,
    [build_jaxpr(lambda *xs: eval_jaxpr(j, xs), n)] returns [j] again, from
    every state. *)
Theorem restaging_fixed_point (n : nat) (e : Expr) (s0 s : State) :
  well_formed n e = true ->
  exists j,
    (build_jaxpr (py_fun n e) n s0).1 = Ok j
    /\ (build_jaxpr (eval_jaxpr j) n s).1 = Ok j.
Proof.
  intros Hwf. exists (jaxpr_of n e). split; [by apply build_jaxpr_py_fun|].
  rewrite <- (build_jaxpr_py_fun n e s Hwf). f_equal.
  rewrite !build_jaxpr_unfold, eval_jaxpr_of; [done..|].
  by rewrite length_map, parameter_names_length.
Qed.

Lemma restaging_fixed_point_witness :
  exists j,
    (build_jaxpr (py_fun 1 foo_expr) 1 initial_state).1 = Ok j
    /\ (build_jaxpr (eval_jaxpr j) 1 initial_state).1 = Ok j.
Proof.
  apply (restaging_fixed_point 1 foo_expr initial_state initial_state). reflexivity.
Defined.

(** X7. Differentiating the staged graph is differentiating the function:
    for the jaxpr [j] of a function of one parameter written with the
    primitives, [jvp(lambda x: eval_jaxpr(j, (x,)), p, t)] is
    [jvp(f, p, t)] on all values and in every state, so that under the
    evaluating interpreter and at floats it returns the primal and the
    tangent of the hand-written dual number computation. *)
Theorem jvp_of_staged (e : Expr) (s0 : State) :
  well_formed 1 e = true ->
  exists j,
    (build_jaxpr (py_fun 1 e) 1 s0).1 = Ok j
    /\ (forall p t s,
          jvp (fun v => eval_jaxpr j [v]) p t s = jvp (fun v => py_fun 1 e [v]) p t s)
    /\ (forall x t s,
          current_interpreter s = EvalInterpreter ->
          (jvp (fun v => eval_jaxpr j [v]) (VFloat x) (VFloat t) s).1
          = Ok (VFloat (primal (dual_expr e [{| primal := x; tangent := t |}])),
                VFloat (tangent (dual_expr e [{| primal := x; tangent := t |}])))).
Proof.
  intros Hwf. exists (jaxpr_of 1 e). split; [by apply build_jaxpr_py_fun|].
  assert (forall p t s,
            jvp (fun v => eval_jaxpr (jaxpr_of 1 e) [v]) p t s
            = jvp (fun v => py_fun 1 e [v]) p t s) as Hext.
  { intros p t s. apply jvp_ext. intros v s'. by apply eval_jaxpr_of. }
  split; [done|]. intros x t s Hc. rewrite Hext. by apply jvp_py_fun.
Qed.

Lemma jvp_of_staged_witness :
  exists j,
    (build_jaxpr (py_fun 1 foo_expr) 1 initial_state).1 = Ok j
    /\ (jvp (fun v => eval_jaxpr j [v]) (VFloat 2.0) (VFloat 1.0) initial_state).1
       = Ok (VFloat 10.0, VFloat 7.0).
Proof.
  destruct (jvp_of_staged foo_expr initial_state eq_refl) as (j & Hb & _ & Hd).
  exists j. split; [exact Hb|].
  apply (Hd 2.0%float 1.0%float initial_state eq_refl).
Defined.

(** ** Edge behaviour *)

(** X8. Only staging has side effects: when the current interpreter is the
    evaluating interpreter, or a JVP interpreter over interpreters of these
    two kinds, [add], [mul] and [eval_jaxpr] leave the whole state as it
    was, whether they return or raise, on all arguments and for every
    jaxpr. *)
Theorem no_side_effect_without_staging (j : Jaxpr) (xs : list value) (x y : value)
    (s : State) :
  no_staging (current_interpreter s) ->
  (add x y s).2 = s /\ (mul x y s).2 = s /\ (eval_jaxpr j xs s).2 = s.
Proof.
  intros Hs. split; [by apply dispatch_no_staging|].
  split; [by apply dispatch_no_staging|].
  unfold eval_jaxpr, bind.
  pose proof (eval_equations_no_staging (equations j)
                (dict_zip (parameters j) xs) s Hs) as He.
  destruct (eval_equations _ _ s) as [[env|err] s1]; simpl in He; subst s1; [|done].
  apply stateless_eval_atom.
Qed.

Lemma no_side_effect_without_staging_witness :
  (add (VFloat 1.0) (VStr "v_1") initial_state).2 = initial_state
  /\ (mul (VFloat 1.0) (VStr "v_1") initial_state).2 = initial_state
  /\ (eval_jaxpr jaxpr_foo [VFloat 2.0] initial_state).2 = initial_state.
Proof.
  apply (no_side_effect_without_staging jaxpr_foo [VFloat 2.0] (VFloat 1.0)
           (VStr "v_1") initial_state).
  exact I.
Defined.

(** X9. An unbound variable is a [KeyError]: when the first equation of a
    jaxpr has an argument, or a jaxpr without equations has a return value,
    that is a variable other than the parameters that were paired with an
    argument, [eval_jaxpr] raises [KeyError] before it dispatches anything,
    leaving the state as it was.  A parameter for which no argument was
    passed is unbound: the number of arguments is not checked. *)
Theorem eval_jaxpr_unbound_variable (j : Jaxpr) (xs : list value) (v : Var) (s : State) :
  v ∉ take (length xs) (parameters j) ->
  match equations j with
  | [] => return_val j = VStr v
  | eqn :: _ => VStr v ∈ args eqn
  end ->
  eval_jaxpr j xs s = (Raise KeyError, s).
Proof.
  intros Hv Huse. apply dict_zip_unbound in Hv.
  unfold eval_jaxpr. destruct (equations j) as [|eqn eqns]; simpl.
  - rewrite bind_ret_l, Huse. simpl. by rewrite Hv.
  - unfold bind. by rewrite (tuple_of_eval_atom_unbound _ v).
Qed.

Lemma eval_jaxpr_unbound_variable_witness :
  eval_jaxpr jaxpr_foo [] initial_state = (Raise KeyError, initial_state).
Proof.
  apply (eval_jaxpr_unbound_variable jaxpr_foo [] "v_1" initial_state).
  - apply not_elem_of_nil.
  - apply list_elem_of_here.
Defined.

(** X10. Surplus arguments are ignored: with at least as many arguments as
    the jaxpr has parameters, [eval_jaxpr] on further arguments behaves as
    without them. *)
Theorem eval_jaxpr_surplus_arguments (j : Jaxpr) (xs extra : list value) (s : State) :
  length (parameters j) <= length xs ->
  eval_jaxpr j (xs ++ extra) s = eval_jaxpr j xs s.
Proof.
  intros Hlen. unfold eval_jaxpr, dict_zip. by rewrite zip_surplus.
Qed.

Lemma eval_jaxpr_surplus_arguments_witness :
  eval_jaxpr jaxpr_foo ([VFloat 2.0] ++ [VStr "v_9"]) initial_state
  = eval_jaxpr jaxpr_foo [VFloat 2.0] initial_state.
Proof.
  apply (eval_jaxpr_surplus_arguments jaxpr_foo [VFloat 2.0] [VStr "v_9"] initial_state).
  simpl. lia.
Defined.

(** X11. The number of arguments of a primitive: with other than two
    arguments, the evaluating interpreter (on floats) and the JVP
    interpreter (on any values, over any interpreter) raise [ValueError] and
    leave the state, with its current interpreter, as it was; the staging
    interpreter records the equation with the arguments as given and
    returns its name. *)
Theorem primitive_arity (op0 : Op.t) (args0 : list value) (s : State) :
  length args0 <> 2 ->
  (forallb isinstance_float args0 = true ->
     interpret_op EvalInterpreter op0 args0 s = (Raise ValueError, s))
  /\ (forall a prev,
        interpret_op (JVPInterpreter a prev) op0 args0 s = (Raise ValueError, s))
  /\ (forall a o,
        objects s !! a = Some o ->
        exists v s' o',
          interpret_op (StagingInterpreter a) op0 args0 s = (Ok (VStr v), s')
          /\ objects s' !! a = Some o'
          /\ staged_equations o'
             = staged_equations o ++ [{| var := v; op := op0; args := args0 |}]).
Proof.
  intros Hlen. split; [|split].
  - intros Hf. by apply Eval_interpret_op_arity.
  - intros a prev. simpl. unfold JVPInterpreter.interpret_op.
    apply set_interpreter_pure.
    destruct op0, args0 as [|x [|y [|z l]]]; simpl in *; first [done | lia].
  - intros a o Ho. simpl. rewrite (Staging_interpret_op_spec _ _ _ _ _ Ho).
    eexists _, _, _. split; [reflexivity|]. split; [apply set_object_lookup|done].
Qed.

Lemma primitive_arity_witness :
  interpret_op EvalInterpreter Op.add [VFloat 1.0] initial_state
  = (Raise ValueError, initial_state)
  /\ interpret_op (JVPInterpreter 1 EvalInterpreter) Op.mul [VFloat 1.0] initial_state
     = (Raise ValueError, initial_state).
Proof.
  split.
  - apply (proj1 (primitive_arity Op.add [VFloat 1.0] initial_state
                    ltac:(simpl; lia))).
    reflexivity.
  - apply (proj1 (proj2 (primitive_arity Op.mul [VFloat 1.0] initial_state
                           ltac:(simpl; lia)))).
Defined.

(** X12. [lift] always returns a dual number that this interpreter owns,
    and lifting twice is lifting once, so that the second [lift] in the
    [Op.mul] rule changes nothing. *)
Theorem lift_idempotent (self : Interpreter) (x : value) :
  JVPInterpreter.lift self (JVPInterpreter.lift self x) = JVPInterpreter.lift self x
  /\ exists i p t,
       JVPInterpreter.lift self x = TaggedDualNumber i p t /\ is_ i self = true.
Proof.
  destruct (lift_is_dual self x) as (i & p & t & E & Hi).
  split; [|by eexists _, _, _].
  rewrite E. by apply lift_owned.
Qed.

(** X13. The current interpreter is kept: [add], [mul], [eval_jaxpr],
    [derivative] and [nth_order_derivative] of order at least one leave
    the current interpreter as they found it, on every exit path, on all
    arguments, for every jaxpr and every function, also one that raises or
    assigns the global itself. *)
Theorem entry_points_keep_interpreter :
  (forall x y, keeps_current (add x y))
  /\ (forall x y, keeps_current (mul x y))
  /\ (forall j xs, keeps_current (eval_jaxpr j xs))
  /\ (forall g x, keeps_current (derivative g x))
  /\ (forall n g x, keeps_current (nth_order_derivative (S n) g x)).
Proof.
  split; [apply keeps_add|]. split; [apply keeps_mul|].
  split; [apply keeps_eval_jaxpr|]. split; [apply keeps_derivative|].
  intros n g x. simpl. apply keeps_derivative.
Qed.

(** X14. The parameters of a jaxpr do not depend on the function: whenever
    [build_jaxpr(f, n)] returns, the jaxpr has the [n] pairwise distinct
    parameters [v_1] to [v_n]; and an exception that [f] raises is the
    exception that [build_jaxpr] raises. *)
Theorem build_jaxpr_parameters (g : list value -> M value) (n : nat) (s : State) :
  (forall j, (build_jaxpr g n s).1 = Ok j ->
     parameters j = map var_name (seq 1 n)
     /\ length (parameters j) = n
     /\ NoDup (parameters j))
  /\ (forall err,
        (g (map VStr (map var_name (seq 1 n))) (staging_entry n s)).1 = Raise err ->
        (build_jaxpr g n s).1 = Raise err).
Proof.
  rewrite build_jaxpr_unfold. fold (parameter_names n).
  destruct (g _ _) as [[result|err0] s']; simpl; split.
  - destruct (objects s' !! next_addr s); simpl; [|done].
    intros j [= <-]. simpl. split; [done|].
    split; [apply parameter_names_length|apply NoDup_var_names].
  - done.
  - done.
  - by intros err [= ->].
Qed.

Lemma build_jaxpr_parameters_witness :
  (build_jaxpr (fun _ => raise TypeError) 2 initial_state).1 = Raise TypeError.
Proof.
  apply (proj2 (build_jaxpr_parameters (fun _ => raise TypeError) 2 initial_state)).
  reflexivity.
Defined.
